(** * Auto Deck ID Manager: a shallow embedding and its properties

    The add-on keeps a label of the form [Deck_Name@00000] in the
    ['Deck ID'] field of Anki notes.  This development embeds

    - [deck_id_manager.py]: [reorder_deck_ids], [get_max_deck_index],
      [add_deck_index_field], [verify_and_add_deck_ids];
    - [browser_id_manager.py]: [update_deck_ids_after_swap],
      [move_card_up], [move_card_down];

    together with the Python built-ins these functions rely on
    ([str.split], [str.rsplit], [str.isdigit], [int], [str], [str.zfill],
    [sorted], [list.index]).

    Conventions.  A Python [str] is a [string] whose characters are read
    as the code points U+0000..U+00FF, one [ascii] per code point.  A
    Python [int] is a [Z].  Printing to the console is not modelled.
    [int] is modelled without the interpreter's optional limit on the
    number of digits.  [str] of an integer raises [ValueError] from
    [10 ** 4300] on (the same limit, 4300 digits by default): [Py.str] is
    [str] below that limit and [Py.str_limited] is [str] with it.  The
    embedded functions format with [Py.str]; where the formatted integer is
    not a position in a list but an index read from a label, the statements
    carry the bound [i < Py.str_limit] under which the two agree.
    [update_note] is modelled for a note that the collection holds, where it
    succeeds (for another note Anki raises [NotFoundError]); a statement
    about a note that is not read from the collection says that it is
    stored. *)

From Stdlib Require Import ZArith Ascii String List Lia Bool.
From stdpp Require Import base option list sorting gmap strings.

Local Open Scope string_scope.
Local Open Scope Z_scope.

(** ** Python built-ins *)

Module Py.

(** Code point of a character. *)
Definition ord (c : ascii) : Z := Z.of_N (N_of_ascii c).

(** Characters that [int] parses as decimal digits: ['0'..'9']. *)
Definition is_decimal (c : ascii) : bool := (48 <=? ord c) && (ord c <=? 57).

(** Characters accepted by [str.isdigit]: the decimal digits and the
    superscript digits U+00B2, U+00B3 and U+00B9. *)
Definition is_digit_char (c : ascii) : bool :=
  is_decimal c || (ord c =? 178) || (ord c =? 179) || (ord c =? 185).

(** Whitespace that [int] strips: TAB, LF, VT, FF, CR, SPACE, U+0085 and
    U+00A0. *)
Definition is_space (c : ascii) : bool :=
  ((9 <=? ord c) && (ord c <=? 13)) || (ord c =? 32) || (ord c =? 133)
  || (ord c =? 160).

Definition digit_value (c : ascii) : Z := ord c - 48.

Definition digit_char (d : Z) : ascii := ascii_of_N (Z.to_N (48 + d)).

(** [bool(s)] for a string: non-empty. *)
Definition truthy (s : string) : bool :=
  match s with EmptyString => false | String _ _ => true end.

(** [c in s] for a one-character needle. *)
Fixpoint contains (c : ascii) (s : string) : bool :=
  match s with
  | EmptyString => false
  | String a r => Ascii.eqb a c || contains c r
  end.

(** [s.split(c)]: never empty. *)
Fixpoint split (c : ascii) (s : string) : list string :=
  match s with
  | EmptyString => [EmptyString]
  | String a r =>
      if Ascii.eqb a c then EmptyString :: split c r
      else match split c r with
           | h :: t => String a h :: t
           | [] => [String a EmptyString]
           end
  end.

(** [l[-1]] on a list of strings known to be non-empty. *)
Definition last_item (l : list string) : string := List.last l EmptyString.

(** The cut of [s] at its last occurrence of [c], if any. *)
Fixpoint rcut (c : ascii) (s : string) : option (string * string) :=
  match s with
  | EmptyString => None
  | String a r =>
      match rcut c r with
      | Some (p, q) => Some (String a p, q)
      | None => if Ascii.eqb a c then Some (EmptyString, r) else None
      end
  end.

(** [s.rsplit(c, 1)]: one or two pieces. *)
Definition rsplit1 (c : ascii) (s : string) : list string :=
  match rcut c s with
  | Some (p, q) => [p; q]
  | None => [s]
  end.

(** [l[0]] on a list of strings known to be non-empty. *)
Definition first_item (l : list string) : string := List.hd EmptyString l.

(** [s.isdigit()]. *)
Fixpoint all_digit_chars (s : string) : bool :=
  match s with
  | EmptyString => true
  | String c r => is_digit_char c && all_digit_chars r
  end.

Definition isdigit (s : string) : bool := truthy s && all_digit_chars s.

(** [int(s)]: surrounding whitespace, an optional sign, then decimal digits
    with single underscores allowed between them.  [None] stands for
    [ValueError]. *)
Fixpoint lstrip (s : string) : string :=
  match s with
  | EmptyString => EmptyString
  | String c r => if is_space c then lstrip r else s
  end.

Fixpoint rstrip (s : string) : string :=
  match s with
  | EmptyString => EmptyString
  | String c r =>
      match rstrip r with
      | EmptyString => if is_space c then EmptyString else String c EmptyString
      | r' => String c r'
      end
  end.

Fixpoint int_digits_from (prev_underscore : bool) (acc : Z) (s : string)
  : option Z :=
  match s with
  | EmptyString => if prev_underscore then None else Some acc
  | String c r =>
      if is_decimal c then int_digits_from false (10 * acc + digit_value c) r
      else if Ascii.eqb c "_" then
             if prev_underscore then None else int_digits_from true acc r
           else None
  end.

Definition int_digits (s : string) : option Z :=
  match s with
  | EmptyString => None
  | String c r =>
      if is_decimal c then int_digits_from false (digit_value c) r else None
  end.

Definition int (s : string) : option Z :=
  match rstrip (lstrip s) with
  | String "+" r => int_digits r
  | String "-" r => Z.opp <$> int_digits r
  | t => int_digits t
  end.

(** [str(n)] for an integer (of at most 4300 digits: see [str_limited]
    below for the interpreter's limit). *)
Fixpoint str_digits (fuel : nat) (n : Z) (acc : string) : string :=
  match fuel with
  | O => acc
  | S fuel' =>
      let acc' := String (digit_char (n mod 10)) acc in
      if n <? 10 then acc' else str_digits fuel' (n / 10) acc'
  end.

Definition str_nonneg (n : Z) : string :=
  str_digits (S (Z.to_nat (Z.log2 n))) n EmptyString.

Definition str (n : Z) : string :=
  if n <? 0 then String "-" (str_nonneg (- n)) else str_nonneg n.

(** [sys.int_info.default_max_str_digits]: the largest number of digits
    that [str] renders. *)
Definition max_str_digits : Z := 4300.

(** The first integer that [str] refuses: [10 ** 4300]. *)
Definition str_limit : Z := 10 ^ max_str_digits.

(** [str(n)] with the interpreter's limit; [None] stands for
    [ValueError]. *)
Definition str_limited (n : Z) : option string :=
  if Z.abs n <? str_limit then Some (str n) else None.

(** [s.zfill(width)]: zeros go after a leading sign. *)
Fixpoint zeros (k : nat) : string :=
  match k with
  | O => EmptyString
  | S k' => String "0" (zeros k')
  end.

Definition zfill (width : nat) (s : string) : string :=
  let pad := zeros (width - String.length s) in
  match s with
  | String "+" r => String "+" (pad ++ r)
  | String "-" r => String "-" (pad ++ r)
  | _ => pad ++ s
  end.

(** [sorted(l, key=...)] once the keys are known: a stable sort of the
    decorated list, ascending by key. *)
Section Sorted.
Context {K A : Type} (leb : K -> K -> bool).

Fixpoint insert_sorted (x : K * A) (l : list (K * A)) : list (K * A) :=
  match l with
  | [] => [x]
  | y :: l' =>
      if leb (fst x) (fst y) then x :: y :: l' else y :: insert_sorted x l'
  end.

Definition sort_decorated (l : list (K * A)) : list (K * A) :=
  foldr insert_sorted [] l.

Definition sorted (l : list (K * A)) : list A := snd <$> sort_decorated l.
End Sorted.

(** [l.index(x)]: position of the first occurrence; [None] stands for
    [ValueError]. *)
Fixpoint index (x : N) (l : list N) : option nat :=
  match l with
  | [] => None
  | y :: l' => if N.eqb y x then Some O else S <$> index x l'
  end.

End Py.

(** ** The host collection

    The part of Anki the add-on talks to.  Cards, decks and note
    identifiers are fixed; the only thing the add-on changes is the value
    of the ['Deck ID'] field of notes, through [update_note]. *)

Inductive exn := KeyError | ValueError.

Inductive result (A : Type) :=
  | Ok (a : A)
  | Raise (e : exn).
Arguments Ok {A} a.
Arguments Raise {A} e.

(** A note object in memory.  [note_deck_id] is the value of its
    ['Deck ID'] field, [None] when its note type has no such field. *)
Record Note := mkNote { note_id : N; note_deck_id : option string }.

(** A card object in memory. *)
Record Card := mkCard { card_id : N; card_nid : N }.

Record Col := mkCol {
  (** [mw.col.decks.cids(deck_id, children=False)] *)
  decks_cids : N -> list N;
  (** [mw.col.decks.get(deck_id)['name']] *)
  decks_name : N -> string;
  (** the note of a card *)
  cards_nid : N -> N;
  (** [mw.col.find_notes("")] *)
  all_note_ids : list N;
  (** [note.cards()[0].current_deck_id()] *)
  notes_deck : N -> N;
  (** stored ['Deck ID'] values; a note outside the map has no such field *)
  fields : gmap N string;
  (** the [update_note] calls so far, most recent first *)
  updates : list (N * string)
}.

(** Computations over the collection that may raise. *)
Definition M (A : Type) : Type := Col -> Col * result A.

#[global] Instance M_ret : MRet M := fun A a col => (col, Ok a).

#[global] Instance M_bind : MBind M := fun A B f m col =>
  match m col with
  | (col', Ok a) => f a col'
  | (col', Raise e) => (col', Raise e)
  end.

Definition raise {A} (e : exn) : M A := fun col => (col, Raise e).

Definition lift {A} (r : result A) : M A := fun col => (col, r).

(** [try: body except Exception: handler] *)
Definition try_except {A} (body : M A) (handler : exn -> M A) : M A :=
  fun col =>
    match body col with
    | (col', Ok a) => (col', Ok a)
    | (col', Raise e) => handler e col'
    end.

(** Evaluating a key (or any computation) on each element, left to right. *)
Fixpoint map_M {A B} (f : A -> M B) (l : list A) : M (list B) :=
  match l with
  | [] => mret []
  | x :: l' => y ← f x; ys ← map_M f l'; mret (y :: ys)
  end.

Definition cids (deck_id : N) : M (list N) :=
  fun col => (col, Ok (decks_cids col deck_id)).

Definition deck_name_of (deck_id : N) : M string :=
  fun col => (col, Ok (decks_name col deck_id)).

Definition find_notes : M (list N) :=
  fun col => (col, Ok (all_note_ids col)).

Definition get_card (cid : N) : M Card :=
  fun col => (col, Ok (mkCard cid (cards_nid col cid))).

Definition get_note (nid : N) : M Note :=
  fun col => (col, Ok (mkNote nid (fields col !! nid))).

(** [card.note()] *)
Definition card_note (card : Card) : M Note := get_note (card_nid card).

(** [note.cards()[0].current_deck_id()] *)
Definition first_card_deck (note : Note) : M N :=
  fun col => (col, Ok (notes_deck col (note_id note))).

(** ['Deck ID' in note] *)
Definition has_deck_id (note : Note) : bool :=
  match note_deck_id note with Some _ => true | None => false end.

(** [note['Deck ID']] *)
Definition getitem (note : Note) : result string :=
  match note_deck_id note with
  | Some v => Ok v
  | None => Raise KeyError
  end.

(** [note['Deck ID'] = v] *)
Definition setitem (note : Note) (v : string) : result Note :=
  match note_deck_id note with
  | Some _ => Ok (mkNote (note_id note) (Some v))
  | None => Raise KeyError
  end.

(** The collection after one stored field value has been replaced. *)
Definition store (nid : N) (v : string) (col : Col) : Col :=
  mkCol (decks_cids col) (decks_name col) (cards_nid col)
        (all_note_ids col) (notes_deck col)
        (<[nid := v]> (fields col)) ((nid, v) :: updates col).

(** [mw.col.update_note(note)], for a note that the collection holds. *)
Definition update_note (note : Note) : M unit :=
  fun col =>
    match note_deck_id note with
    | Some v => (store (note_id note) v col, Ok tt)
    | None => (col, Ok tt)
    end.

(** [int(s)] as a computation. *)
Definition int_M (s : string) : M Z :=
  match Py.int s with
  | Some z => mret z
  | None => raise ValueError
  end.

(** ** deck_id_manager.py *)

(** The f-string [f"{prefix}@{str(i).zfill(5)}"]. *)
Definition format_deck_id (prefix : string) (i : Z) : string :=
  prefix ++ "@" ++ Py.zfill 5 (Py.str i).

(** The same f-string with the limit of [str]: [ValueError] when [i] has
    more than 4300 digits. *)
Definition format_deck_id_limited (prefix : string) (i : Z) : result string :=
  match Py.str_limited i with
  | Some s => Ok (prefix ++ "@" ++ Py.zfill 5 s)
  | None => Raise ValueError
  end.

(** [note['Deck ID'] if 'Deck ID' in note else None] *)
Definition deck_id_or_none (note : Note) : option string :=
  if has_deck_id note then note_deck_id note else None.

(** The sort key of [reorder_deck_ids]:
    [int(mw.col.get_card(cid).note()['Deck ID'].split('@')[-1])]. *)
Definition reorder_key (cid : N) : M Z :=
  card ← get_card cid;
  note ← card_note card;
  v ← lift (getitem note);
  int_M (Py.last_item (Py.split "@" v)).

(** The loop [for i, card_id in enumerate(sorted_cards, start=1)]. *)
Fixpoint reorder_loop (i : Z) (sorted_cards : list N) : M unit :=
  match sorted_cards with
  | [] => mret tt
  | cid :: rest =>
      card ← get_card cid;
      note ← card_note card;
      _ ← match deck_id_or_none note with
          | Some deck_id_field =>
              if Py.truthy deck_id_field then
                let prefix := Py.first_item (Py.rsplit1 "@" deck_id_field) in
                let new_deck_id := format_deck_id prefix i in
                note' ← lift (setitem note new_deck_id);
                update_note note'
              else mret tt
          | None => mret tt
          end;
      reorder_loop (i + 1) rest
  end.

Definition reorder_deck_ids (deck_id : N) : M unit :=
  all_cards ← cids deck_id;
  try_except
    (keys ← map_M reorder_key all_cards;
     let sorted_cards := Py.sorted Z.leb (zip keys all_cards) in
     reorder_loop 1 sorted_cards)
    (fun _ => mret tt).

(** The loop of [get_max_deck_index]. *)
Fixpoint max_index_loop (max_index : Z) (all_cards : list N) : M Z :=
  match all_cards with
  | [] => mret max_index
  | cid :: rest =>
      card ← get_card cid;
      note ← card_note card;
      max_index' ←
        match deck_id_or_none note with
        | Some index_field =>
            if Py.truthy index_field && Py.contains "@" index_field then
              let index_part := Py.last_item (Py.split "@" index_field) in
              if Py.isdigit index_part then
                v ← int_M index_part;
                mret (Z.max max_index v)
              else mret max_index
            else mret max_index
        | None => mret max_index
        end;
      max_index_loop max_index' rest
  end.

Definition get_max_deck_index (deck_id : N) : M Z :=
  _ ← reorder_deck_ids deck_id;
  _ ← deck_name_of deck_id;
  all_cards ← cids deck_id;
  max_index_loop 0 all_cards.

Definition add_deck_index_field (note : Note) (deck_id : N) : M Note :=
  deck_name ← deck_name_of deck_id;
  max_index ← get_max_deck_index deck_id;
  let next_index := max_index + 1 in
  let new_deck_id := format_deck_id deck_name next_index in
  lift (setitem note new_deck_id).


(** The sort key of [verify_and_add_deck_ids]. *)
Definition verify_key (note_id : N) : M string :=
  note ← get_note note_id;
  if has_deck_id note then
    note2 ← get_note note_id;
    lift (getitem note2)
  else mret "".

(** The loop [for note_id in sorted_notes] with its [deck_counters]. *)
Fixpoint verify_loop (deck_counters : gmap string Z) (sorted_notes : list N)
  : M unit :=
  match sorted_notes with
  | [] => mret tt
  | note_id :: rest =>
      note ← get_note note_id;
      if negb (has_deck_id note) then verify_loop deck_counters rest
      else
        deck_id ← first_card_deck note;
        deck_name ← deck_name_of deck_id;
        let count :=
          match deck_counters !! deck_name with
          | None => 1
          | Some k => k + 1
          end in
        let deck_counters' := <[deck_name := count]> deck_counters in
        deck_id_field ← lift (getitem note);
        let expected_deck_id := format_deck_id deck_name count in
        _ ← (if negb (String.eqb deck_id_field expected_deck_id) then
               note' ← lift (setitem note expected_deck_id);
               update_note note'
             else mret tt);
        verify_loop deck_counters' rest
  end.

Definition verify_and_add_deck_ids : M unit :=
  all_notes ← find_notes;
  keys ← map_M verify_key all_notes;
  let sorted_notes := Py.sorted String.leb (zip keys all_notes) in
  verify_loop ∅ sorted_notes.

Definition on_note_will_be_added (note : Note) (deck_id : N) : M Note :=
  if has_deck_id note then add_deck_index_field note deck_id else mret note.

(** ** browser_id_manager.py *)

Definition update_deck_ids_after_swap (card_a card_b : Card) : M bool :=
  note_a ← card_note card_a;
  note_b ← card_note card_b;
  deck_id_a ← lift (getitem note_a);
  let prefix_a := Py.first_item (Py.rsplit1 "@" deck_id_a) in
  deck_id_b ← lift (getitem note_b);
  let prefix_b := Py.first_item (Py.rsplit1 "@" deck_id_b) in
  if negb (String.eqb prefix_a prefix_b) then mret false
  else
    let suffix_b := Py.last_item (Py.rsplit1 "@" deck_id_b) in
    let suffix_a := Py.last_item (Py.rsplit1 "@" deck_id_a) in
    let new_deck_id_a := prefix_a ++ "@" ++ suffix_b in
    note_a' ← lift (setitem note_a new_deck_id_a);
    _ ← update_note note_a';
    let new_deck_id_b := prefix_b ++ "@" ++ suffix_a in
    note_b' ← lift (setitem note_b new_deck_id_b);
    _ ← update_note note_b';
    mret true.

(** [l[i], l[j] = l[j], l[i]] for positions inside the list. *)
Definition swap_items (l : list N) (i j : nat) : list N :=
  match l !! i, l !! j with
  | Some x, Some y => <[j := x]> (<[i := y]> l)
  | _, _ => l
  end.

(** The list [visible_card_ids] is updated in place: the functions return
    its new content next to their result. *)
Definition move_card_up (selected_card_id : N) (visible_card_ids : list N)
  : M (bool * list N) :=
  match Py.index selected_card_id visible_card_ids with
  | None => raise ValueError
  | Some index =>
      match index with
      | S upper =>
          let upper_card_id := default 0%N (visible_card_ids !! upper) in
          upper_card ← get_card upper_card_id;
          selected_card ← get_card selected_card_id;
          swapped ← update_deck_ids_after_swap selected_card upper_card;
          if (swapped : bool) then
            mret (true, swap_items visible_card_ids index upper)
          else mret (false, visible_card_ids)
      | O => mret (false, visible_card_ids)
      end
  end.

Definition move_card_down (selected_card_id : N) (visible_card_ids : list N)
  : M (bool * list N) :=
  match Py.index selected_card_id visible_card_ids with
  | None => raise ValueError
  | Some index =>
      if (Z.of_nat index <? Z.of_nat (length visible_card_ids) - 1) then
        let lower_card_id := default 0%N (visible_card_ids !! S index) in
        lower_card ← get_card lower_card_id;
        selected_card ← get_card selected_card_id;
        swapped ← update_deck_ids_after_swap selected_card lower_card;
        if (swapped : bool) then
          mret (true, swap_items visible_card_ids index (S index))
        else mret (false, visible_card_ids)
      else mret (false, visible_card_ids)
  end.

(** [reorder_deck_ids] of [browser_id_manager.py] (the module
    [deck_id_manager.py] has a function of the same name): the visible cards
    are renumbered by their position in the list, with no [try]. *)
Module Browser.

(** The loop [for i, card_id in enumerate(visible_card_ids)]. *)
Fixpoint reorder_loop (i : Z) (visible_card_ids : list N) : M unit :=
  match visible_card_ids with
  | [] => mret tt
  | cid :: rest =>
      card ← get_card cid;
      note ← card_note card;
      deck_id_field ← lift (getitem note);
      let prefix := Py.first_item (Py.rsplit1 "@" deck_id_field) in
      let new_deck_id := format_deck_id prefix (i + 1) in
      note' ← lift (setitem note new_deck_id);
      _ ← update_note note';
      reorder_loop (i + 1) rest
  end.

Definition reorder_deck_ids (visible_card_ids : list N) : M unit :=
  reorder_loop 0 visible_card_ids.

End Browser.

(** ** Auxiliary notions used in the statements *)

(** Strings made of the characters ['0'..'9'] only. *)
Fixpoint all_decimal (s : string) : bool :=
  match s with
  | EmptyString => true
  | String c r => Py.is_decimal c && all_decimal r
  end.

(** Value of a string of decimal digits read after the digits summed up in
    [acc]. *)
Fixpoint dec_value (acc : Z) (s : string) : Z :=
  match s with
  | EmptyString => acc
  | String c r => dec_value (10 * acc + Py.digit_value c) r
  end.

(** The text before the last ['@'] of a label (the whole label if it has
    none): [label.rsplit('@', 1)[0]]. *)
Definition prefix_of (label : string) : string :=
  Py.first_item (Py.rsplit1 "@" label).

(** The text after the last ['@'] of a label (the whole label if it has
    none): [label.rsplit('@', 1)[-1]], also [label.split('@')[-1]]. *)
Definition suffix_of (label : string) : string :=
  Py.last_item (Py.rsplit1 "@" label).

(** Ascending by key, for the decorated lists that [sorted] works on. *)
Definition key_le {K A : Type} (leb : K -> K -> bool) (x y : K * A) : Prop :=
  leb (fst x) (fst y) = true.

(** The reading of a label that the code performs: the text before the
    last ['@'] ([rsplit('@', 1)[0]]) and the integer after it, when the label
    has an ['@'] and what follows the last one is all digits
    ([get_max_deck_index]).  [None] when the label gives no index. *)
Definition parse (label : string) : option (string * Z) :=
  if Py.truthy label && Py.contains "@" label then
    let index_part := Py.last_item (Py.split "@" label) in
    if Py.isdigit index_part then
      (fun v => (prefix_of label, v)) <$> Py.int index_part
    else None
  else None.

(** The stored label of the note of a card. *)
Definition label_of (col : Col) (cid : N) : option string :=
  fields col !! cards_nid col cid.

(** The integer that [reorder_deck_ids] sorts a card by, when there is
    one: the label of the card's note is present and [int] accepts what
    follows its last ['@']. *)
Definition sort_key (col : Col) (cid : N) : option Z :=
  label_of col cid ≫= fun v => Py.int (suffix_of v).

(** [enumerate(l, start=i)] *)
Fixpoint enumerate (i : Z) (l : list N) : list (Z * N) :=
  match l with
  | [] => []
  | x :: l' => (i, x) :: enumerate (i + 1) l'
  end.

(** One renumbering write: the note of card [p.2] is stored with the prefix
    that its label had in [col0] and the position [p.1]. *)
Definition renumber (col0 col : Col) (p : Z * N) : Col :=
  store (cards_nid col0 p.2)
        (format_deck_id (prefix_of (default "" (label_of col0 p.2))) p.1) col.

(** The cards of a deck in the order in which [reorder_deck_ids] renumbers
    them, given their sort keys. *)
Definition sweep_order (col : Col) (deck_id : N) (keys : list Z) : list N :=
  Py.sorted Z.leb (zip keys (decks_cids col deck_id)).

(** The write that [renumber] performs, as logged by [update_note]. *)
Definition renumber_write (col0 : Col) (p : Z * N) : N * string :=
  (cards_nid col0 p.2,
   format_deck_id (prefix_of (default "" (label_of col0 p.2))) p.1).




(** ['Deck ID' in note] for a stored note. *)
Definition labelled (col : Col) (n : N) : bool :=
  match fields col !! n with Some _ => true | None => false end.

(** The deck name under which [verify_and_add_deck_ids] counts a note. *)
Definition note_group (col : Col) (n : N) : string :=
  decks_name col (notes_deck col n).

(** The notes that carry the field and are counted under the name [g]. *)
Definition in_group (col : Col) (g : string) (n : N) : Prop :=
  labelled col n = true /\ note_group col n = g.

#[global] Instance in_group_dec col g n : Decision (in_group col g n).
Proof. unfold in_group. apply _. Defined.

(** The labels that the loop of [verify_and_add_deck_ids] expects, note by
    note, in the order of the visit and starting from the counters [cnt]. *)
Fixpoint assign (col : Col) (cnt : gmap string Z) (l : list N)
  : list (N * string) :=
  match l with
  | [] => []
  | n :: rest =>
      if labelled col n then
        let g := note_group col n in
        let count := default 0 (cnt !! g) + 1 in
        (n, format_deck_id g count) :: assign col (<[g := count]> cnt) rest
      else assign col cnt rest
  end.

(** One visit of that loop: the note is written unless it already has the
    expected label. *)
Definition fix_label (col : Col) (p : N * string) : Col :=
  if decide (fields col !! p.1 = Some p.2) then col else store p.1 p.2 col.

(** The sort key of [verify_and_add_deck_ids]. *)
Definition label_or_empty (col : Col) (n : N) : string :=
  default "" (fields col !! n).

(** The notes in the order in which [verify_and_add_deck_ids] visits
    them. *)
Definition verify_order (col : Col) : list N :=
  Py.sorted String.leb
    ((fun n => (label_or_empty col n, n)) <$> all_note_ids col).

(** The index that a card contributes to the maximum, if any. *)
Definition card_index (col : Col) (cid : N) : option Z :=
  snd <$> (label_of col cid ≫= parse).

(** The largest index among the cards of a deck, 0 when there is none. *)
Definition max_index (col : Col) (deck_id : N) : Z :=
  foldr Z.max 0 (omap (card_index col) (decks_cids col deck_id)).

(** A collection for examples: every deck holds the cards [cs] and is
    called [name], card [c] belongs to note [nid c], and the notes and
    their ['Deck ID'] values are listed in [fs]. *)
Definition example_col (name : string) (cs : list N) (nid : N -> N)
    (fs : list (N * string)) : Col :=
  mkCol (fun _ => cs) (fun _ => name) nid (fst <$> fs) (fun _ => 1%N)
        (list_to_map fs) [].

(** The identifiers [1; 2; ...; n]. *)
Definition N_range (n : nat) : list N := N.of_nat <$> seq 1 n.

(** One deck called ["D"] with [n] notes, numbered from 1, each with an
    empty ['Deck ID'] field. *)
Definition large_deck (n : nat) : Col :=
  mkCol (fun _ => []) (fun _ => "D") id (N_range n) (fun _ => 1%N)
        (list_to_map ((fun k => (k, "")) <$> N_range n)) [].

(** The spec's example: two labelled notes and a note without the field,
    all in the deck ["Art"]. *)
Definition art_col : Col :=
  mkCol (fun _ => []) (fun _ => "Art") id [1; 2; 3]%N (fun _ => 1%N)
        (list_to_map [(1%N, "Art@00005"); (2%N, "Art@00002")]) [].

(** The character U+00B2 (superscript two): [str.isdigit] accepts it, [int]
    does not. *)
Definition superscript_two : ascii := "178"%char.

(* ================================================================= *)
(** * Properties *)

(** ** Strings *)

Section StringFacts.

#[local] Arguments String.append !_ _ /.

Lemma append_nil_r (s : string) : s ++ "" = s.
Proof. induction s as [|c s IH]; simpl; [done | by rewrite IH]. Qed.

Lemma append_assoc (s t u : string) : (s ++ t) ++ u = s ++ (t ++ u).
Proof. induction s as [|c s IH]; simpl; [done | by rewrite IH]. Qed.

Lemma length_append (s t : string) :
  String.length (s ++ t) = (String.length s + String.length t)%nat.
Proof. induction s as [|c s IH]; simpl; [done | by rewrite IH]. Qed.

Lemma contains_app c (s t : string) :
  Py.contains c (s ++ t) = Py.contains c s || Py.contains c t.
Proof.
  induction s as [|a s IH]; simpl; [done|].
  rewrite IH. by rewrite orb_assoc.
Qed.

Lemma rcut_None c s : Py.rcut c s = None <-> Py.contains c s = false.
Proof.
  induction s as [|a s IH]; simpl; [done|].
  destruct (Py.rcut c s) as [[p q]|].
  - split; [done|]. intros [_ H]%orb_false_iff.
    apply IH in H. done.
  - destruct (Ascii.eqb a c); simpl; [done|]. split; [|done].
    intros _. by apply IH.
Qed.

Lemma rcut_Some c s p q :
  Py.rcut c s = Some (p, q) -> s = p ++ String c q /\ Py.contains c q = false.
Proof.
  revert p q. induction s as [|a s IH]; intros p q; simpl; [done|].
  destruct (Py.rcut c s) as [[p' q']|] eqn:E.
  - intros [= <- <-]. destruct (IH _ _ eq_refl) as [-> Hq]. done.
  - destruct (Ascii.eqb_spec a c) as [->|]; [|done].
    intros [= <- <-]. split; [done|]. by apply rcut_None.
Qed.

Lemma rcut_app c p q :
  Py.contains c q = false -> Py.rcut c (p ++ String c q) = Some (p, q).
Proof.
  intros Hq. induction p as [|a p IH]; simpl.
  - apply rcut_None in Hq. rewrite Hq. by rewrite Ascii.eqb_refl.
  - by rewrite IH.
Qed.

Lemma split_nonempty c s : Py.split c s <> [].
Proof.
  destruct s as [|a s]; simpl; [done|].
  destruct (Ascii.eqb a c); [done|]. by destruct (Py.split c s).
Qed.

Lemma split_rcut c s :
  Py.split c s =
  match Py.rcut c s with
  | Some (p, q) => (Py.split c p ++ [q])%list
  | None => [s]
  end.
Proof.
  induction s as [|a s IH]; simpl; [done|].
  destruct (Ascii.eqb a c) eqn:Ea; rewrite IH.
  - destruct (Py.rcut c s) as [[p q]|]; simpl; [|done].
    by rewrite Ea.
  - destruct (Py.rcut c s) as [[p q]|]; simpl; [|done].
    rewrite Ea. pose proof (split_nonempty c p).
    by destruct (Py.split c p).
Qed.

(** [label.split('@')[-1]] and [label.rsplit('@', 1)[-1]] are the same
    text. *)
Lemma split_last_rcut c s :
  Py.last_item (Py.split c s) =
  match Py.rcut c s with Some (_, q) => q | None => s end.
Proof.
  rewrite split_rcut. unfold Py.last_item.
  destruct (Py.rcut c s) as [[p q]|]; [|done].
  by rewrite last_last.
Qed.

Lemma suffix_of_split label :
  Py.last_item (Py.split "@" label) = suffix_of label.
Proof.
  rewrite split_last_rcut. unfold suffix_of, Py.rsplit1.
  destruct (Py.rcut "@" label) as [[p q]|]; done.
Qed.

Lemma prefix_of_join p q :
  Py.contains "@" q = false -> prefix_of (p ++ "@" ++ q) = p.
Proof.
  intros Hq. unfold prefix_of, Py.rsplit1.
  change (p ++ "@" ++ q) with (p ++ String "@" q).
  by rewrite rcut_app.
Qed.

Lemma suffix_of_join p q :
  Py.contains "@" q = false -> suffix_of (p ++ "@" ++ q) = q.
Proof.
  intros Hq. unfold suffix_of, Py.rsplit1.
  change (p ++ "@" ++ q) with (p ++ String "@" q).
  by rewrite rcut_app.
Qed.

Lemma contains_join p q : Py.contains "@" (p ++ "@" ++ q) = true.
Proof.
  rewrite contains_app. simpl. by rewrite orb_true_r.
Qed.

(** A label is its prefix and its suffix around the last ['@']. *)
Lemma label_prefix_suffix label :
  Py.contains "@" label = true ->
  label = prefix_of label ++ "@" ++ suffix_of label /\
  Py.contains "@" (suffix_of label) = false.
Proof.
  intros H. unfold prefix_of, suffix_of, Py.rsplit1.
  destruct (Py.rcut "@" label) as [[p q]|] eqn:E.
  - by apply rcut_Some in E.
  - apply rcut_None in E. congruence.
Qed.

Lemma suffix_of_no_at label : Py.contains "@" (suffix_of label) = false.
Proof.
  unfold suffix_of, Py.rsplit1.
  destruct (Py.rcut "@" label) as [[p q]|] eqn:E; simpl.
  - by apply rcut_Some in E as [_ ?].
  - by apply rcut_None.
Qed.

End StringFacts.

(** ** Decimal digits, [str], [int] and [zfill] *)

Section DecimalFacts.

#[local] Arguments String.append !_ _ /.

Lemma is_decimal_facts c :
  Py.is_decimal c = true ->
  Py.is_digit_char c = true /\ Py.is_space c = false /\
  Ascii.eqb c "@" = false /\ Ascii.eqb c "_" = false /\
  0 <= Py.digit_value c <= 9 /\
  match c with "+"%char | "-"%char => False | _ => True end.
Proof.
  destruct c as [[] [] [] [] [] [] [] []]; vm_compute; intros H;
    try discriminate H; repeat split; congruence.
Qed.

Lemma digit_char_decimal d :
  0 <= d <= 9 ->
  Py.is_decimal (Py.digit_char d) = true /\
  Py.digit_value (Py.digit_char d) = d.
Proof.
  intros H.
  assert (d = 0 \/ d = 1 \/ d = 2 \/ d = 3 \/ d = 4 \/ d = 5 \/ d = 6 \/
          d = 7 \/ d = 8 \/ d = 9) as Hd by lia.
  repeat (destruct Hd as [->|Hd]; [by vm_compute|]). subst d. by vm_compute.
Qed.

Lemma all_decimal_app s t :
  all_decimal (s ++ t) = all_decimal s && all_decimal t.
Proof.
  induction s as [|c s IH]; simpl; [done|]. by rewrite IH, andb_assoc.
Qed.

Lemma dec_value_app acc s t :
  dec_value acc (s ++ t) = dec_value (dec_value acc s) t.
Proof. revert acc. induction s as [|c s IH]; intros acc; simpl; auto. Qed.

Lemma all_decimal_no_at s : all_decimal s = true -> Py.contains "@" s = false.
Proof.
  induction s as [|c s IH]; simpl; [done|].
  intros [Hc Hs]%andb_true_iff.
  apply is_decimal_facts in Hc as (_ & _ & -> & _). simpl. auto.
Qed.

Lemma all_decimal_digit_chars s :
  all_decimal s = true -> Py.all_digit_chars s = true.
Proof.
  induction s as [|c s IH]; simpl; [done|].
  intros [Hc Hs]%andb_true_iff.
  apply is_decimal_facts in Hc as (-> & _). simpl. auto.
Qed.

Lemma all_decimal_lstrip s : all_decimal s = true -> Py.lstrip s = s.
Proof.
  destruct s as [|c s]; simpl; [done|].
  intros [Hc Hs]%andb_true_iff.
  by apply is_decimal_facts in Hc as (_ & -> & _).
Qed.

Lemma all_decimal_rstrip s : all_decimal s = true -> Py.rstrip s = s.
Proof.
  induction s as [|c s IH]; simpl; [done|].
  intros [Hc Hs]%andb_true_iff. rewrite (IH Hs).
  apply is_decimal_facts in Hc as (_ & -> & _). by destruct s.
Qed.

Lemma int_digits_from_decimal acc s :
  all_decimal s = true ->
  Py.int_digits_from false acc s = Some (dec_value acc s).
Proof.
  revert acc. induction s as [|c s IH]; intros acc; simpl; [done|].
  intros [Hc Hs]%andb_true_iff. rewrite Hc. by apply IH.
Qed.

(** [int] reads a non-empty string of decimal digits as its value. *)
Lemma int_decimal s :
  all_decimal s = true -> Py.truthy s = true ->
  Py.int s = Some (dec_value 0 s).
Proof.
  intros Hs Hne. unfold Py.int.
  rewrite (all_decimal_lstrip s Hs), (all_decimal_rstrip s Hs).
  destruct s as [|c s]; [done|]. simpl in Hs.
  apply andb_true_iff in Hs as [Hc Hs].
  assert (Py.int_digits (String c s) = Some (dec_value 0 (String c s))) as E.
  { simpl. rewrite Hc. by apply int_digits_from_decimal. }
  apply is_decimal_facts in Hc as (_ & _ & _ & _ & _ & Hsign).
  destruct c as [[] [] [] [] [] [] [] []]; try done.
Qed.

Lemma isdigit_decimal s :
  all_decimal s = true -> Py.truthy s = true -> Py.isdigit s = true.
Proof.
  intros Hs Hne. unfold Py.isdigit. rewrite Hne.
  by apply all_decimal_digit_chars.
Qed.

(** [str] on a non-negative integer: the last digit is [n mod 10], the
    digits before it are those of [n / 10]. *)
Lemma str_digits_acc fuel n acc :
  Py.str_digits fuel n acc = Py.str_digits fuel n "" ++ acc.
Proof.
  revert n acc. induction fuel as [|fuel IH]; intros n acc; simpl; [done|].
  destruct (n <? 10); [done|].
  rewrite (IH _ (String _ acc)), (IH _ (String _ "")).
  by rewrite append_assoc.
Qed.

Lemma str_digits_fuel f1 f2 n acc :
  0 <= n -> n < 2 ^ Z.of_nat (S f1) -> n < 2 ^ Z.of_nat (S f2) ->
  Py.str_digits (S f1) n acc = Py.str_digits (S f2) n acc.
Proof.
  revert f2 n acc. induction f1 as [|f1 IH]; intros f2 n acc Hn H1 H2.
  - simpl in *. destruct (Z.ltb_spec n 10); [done|].
    change (2 ^ 1) with 2 in H1. lia.
  - change (Py.str_digits (S (S f1)) n acc) with
      (if n <? 10 then String (Py.digit_char (n mod 10)) acc
       else Py.str_digits (S f1) (n / 10)
              (String (Py.digit_char (n mod 10)) acc)).
    destruct f2 as [|f2].
    + simpl. destruct (Z.ltb_spec n 10); [done|].
      change (2 ^ Z.of_nat 1) with 2 in H2. lia.
    + change (Py.str_digits (S (S f2)) n acc) with
        (if n <? 10 then String (Py.digit_char (n mod 10)) acc
         else Py.str_digits (S f2) (n / 10)
                (String (Py.digit_char (n mod 10)) acc)).
      destruct (Z.ltb_spec n 10); [done|].
      rewrite !Nat2Z.inj_succ, Z.pow_succ_r in H1, H2 by lia.
      apply IH.
      * apply Z.div_pos; lia.
      * rewrite Nat2Z.inj_succ. apply Z.div_lt_upper_bound; lia.
      * rewrite Nat2Z.inj_succ. apply Z.div_lt_upper_bound; lia.
Qed.

Lemma str_nonneg_bound n :
  0 <= n -> n < 2 ^ Z.of_nat (S (Z.to_nat (Z.log2 n))).
Proof.
  intros Hn. rewrite Nat2Z.inj_succ, Z2Nat.id by apply Z.log2_nonneg.
  destruct (Z.eq_dec n 0) as [->|]; [done|].
  apply Z.log2_spec. lia.
Qed.

Lemma str_nonneg_small n :
  0 <= n < 10 -> Py.str_nonneg n = String (Py.digit_char n) "".
Proof.
  intros Hn. unfold Py.str_nonneg. simpl.
  destruct (Z.ltb_spec n 10); [|lia]. by rewrite Z.mod_small by lia.
Qed.

Lemma str_nonneg_large n :
  10 <= n ->
  Py.str_nonneg n =
  Py.str_nonneg (n / 10) ++ String (Py.digit_char (n mod 10)) "".
Proof.
  intros Hn. unfold Py.str_nonneg.
  assert (0 <= n / 10) as Hq by (apply Z.div_pos; lia).
  pose proof (str_nonneg_bound n ltac:(lia)) as Hb.
  destruct (Z.to_nat (Z.log2 n)) as [|L] eqn:EL.
  { change (2 ^ Z.of_nat 1) with 2 in Hb. lia. }
  change (Py.str_digits (S (S L)) n "") with
    (if n <? 10 then String (Py.digit_char (n mod 10)) ""
     else Py.str_digits (S L) (n / 10) (String (Py.digit_char (n mod 10)) "")).
  destruct (Z.ltb_spec n 10); [lia|].
  rewrite str_digits_acc. f_equal.
  apply str_digits_fuel; [done| |by apply str_nonneg_bound].
  rewrite Nat2Z.inj_succ, Z.pow_succ_r in Hb by lia.
  apply Z.div_lt_upper_bound; lia.
Qed.

(** An induction principle following the digits of a number. *)
Lemma digits_ind (P : Z -> Prop) :
  (forall n, 0 <= n < 10 -> P n) ->
  (forall n, 10 <= n -> P (n / 10) -> P n) ->
  forall n, 0 <= n -> P n.
Proof.
  intros Hsmall Hlarge. apply Zlt_0_ind. intros n IH Hn.
  destruct (Z_lt_dec n 10) as [Hlt|Hge]; [apply Hsmall; lia|].
  apply Hlarge; [lia|]. apply IH. split.
  - apply Z.div_pos; lia.
  - apply Z.div_lt_upper_bound; lia.
Qed.

Lemma str_nonneg_decimal n :
  0 <= n -> all_decimal (Py.str_nonneg n) = true.
Proof.
  revert n. apply digits_ind; intros n Hn.
  - rewrite str_nonneg_small by done. simpl.
    destruct (digit_char_decimal n) as [-> _]; [lia|done].
  - intros IH. rewrite str_nonneg_large, all_decimal_app, IH by done. simpl.
    destruct (digit_char_decimal (n mod 10)) as [-> _]; [|done].
    pose proof (Z.mod_pos_bound n 10). lia.
Qed.

Lemma str_nonneg_truthy n : 0 <= n -> Py.truthy (Py.str_nonneg n) = true.
Proof.
  intros Hn. destruct (Z_lt_dec n 10).
  - by rewrite str_nonneg_small by lia.
  - rewrite str_nonneg_large by lia. by destruct (Py.str_nonneg (n / 10)).
Qed.

Lemma str_nonneg_value n : 0 <= n -> dec_value 0 (Py.str_nonneg n) = n.
Proof.
  revert n. apply digits_ind; intros n Hn.
  - rewrite str_nonneg_small by done. simpl.
    destruct (digit_char_decimal n) as [_ ->]; lia.
  - intros IH. rewrite str_nonneg_large, dec_value_app, IH by done. simpl.
    pose proof (Z.mod_pos_bound n 10).
    destruct (digit_char_decimal (n mod 10)) as [_ ->]; [lia|].
    pose proof (Z.div_mod n 10). lia.
Qed.

(** The number of digits of [str n]: at most [k] below [10 ^ k], more than
    [k] from [10 ^ k] on. *)
Lemma str_nonneg_length_le n :
  0 <= n -> forall k : nat, n < 10 ^ Z.of_nat (S k) ->
  (String.length (Py.str_nonneg n) <= S k)%nat.
Proof.
  revert n. apply (digits_ind (fun n => forall k : nat,
    n < 10 ^ Z.of_nat (S k) ->
    (String.length (Py.str_nonneg n) <= S k)%nat)); intros n Hn.
  - intros k _. rewrite str_nonneg_small by done. simpl. lia.
  - intros IH k Hk. rewrite str_nonneg_large, length_append by done. simpl.
    destruct k as [|k]; [change (10 ^ Z.of_nat 1) with 10 in Hk; lia|].
    specialize (IH k). rewrite (Nat2Z.inj_succ (S k)), Z.pow_succ_r in Hk by lia.
    assert (n / 10 < 10 ^ Z.of_nat (S k)) by (apply Z.div_lt_upper_bound; lia).
    specialize (IH ltac:(done)). lia.
Qed.

Lemma str_nonneg_length_gt n :
  0 <= n -> forall k : nat, 10 ^ Z.of_nat k <= n ->
  (k < String.length (Py.str_nonneg n))%nat.
Proof.
  revert n. apply (digits_ind (fun n => forall k : nat,
    10 ^ Z.of_nat k <= n ->
    (k < String.length (Py.str_nonneg n))%nat)); intros n Hn.
  - intros k Hk. rewrite str_nonneg_small by done. simpl.
    destruct k as [|k]; [lia|].
    rewrite Nat2Z.inj_succ, Z.pow_succ_r in Hk by lia.
    assert (0 < 10 ^ Z.of_nat k) by (apply Z.pow_pos_nonneg; lia). lia.
  - intros IH k Hk. rewrite str_nonneg_large, length_append by done. simpl.
    destruct k as [|k]; [lia|].
    specialize (IH k). rewrite Nat2Z.inj_succ, Z.pow_succ_r in Hk by lia.
    assert (10 ^ Z.of_nat k <= n / 10) by (apply Z.div_le_lower_bound; lia).
    specialize (IH ltac:(done)). lia.
Qed.

Lemma str_nonneg_eq n : 0 <= n -> Py.str n = Py.str_nonneg n.
Proof. intros Hn. unfold Py.str. by destruct (Z.ltb_spec n 0); [lia|]. Qed.

(** [zfill] and strings of digits. *)
Lemma all_decimal_zeros k : all_decimal (Py.zeros k) = true.
Proof. induction k as [|k IH]; simpl; [done|]. by rewrite IH. Qed.

Lemma dec_value_zeros k s : dec_value 0 (Py.zeros k ++ s) = dec_value 0 s.
Proof. induction k as [|k IH]; simpl; [done|]. exact IH. Qed.

Lemma length_zeros k : String.length (Py.zeros k) = k.
Proof. induction k as [|k IH]; simpl; [done|]. by rewrite IH. Qed.

Lemma zfill_decimal w s :
  all_decimal s = true ->
  Py.zfill w s = Py.zeros (w - String.length s) ++ s.
Proof.
  intros Hs. unfold Py.zfill. destruct s as [|c s]; [done|].
  simpl in Hs. apply andb_true_iff in Hs as [Hc _].
  apply is_decimal_facts in Hc as (_ & _ & _ & _ & _ & Hsign).
  destruct c as [[] [] [] [] [] [] [] []]; done.
Qed.

End DecimalFacts.

(** ** The label codec *)

Section Codec.

Lemma zfill_str_parts w i :
  0 <= i ->
  Py.zfill w (Py.str i) =
    Py.zeros (w - String.length (Py.str i)) ++ Py.str i /\
  all_decimal (Py.zfill w (Py.str i)) = true /\
  Py.truthy (Py.zfill w (Py.str i)) = true /\
  dec_value 0 (Py.zfill w (Py.str i)) = i.
Proof.
  intros Hi. rewrite str_nonneg_eq by done.
  pose proof (str_nonneg_decimal i Hi) as Hd.
  rewrite (zfill_decimal w _ Hd). split; [done|].
  rewrite all_decimal_app, all_decimal_zeros, Hd, dec_value_zeros,
    str_nonneg_value by done.
  repeat split.
  pose proof (str_nonneg_truthy i Hi).
  destruct (Py.zeros _); [|done]. done.
Qed.

Lemma format_deck_id_parts p i :
  0 <= i ->
  prefix_of (format_deck_id p i) = p /\
  suffix_of (format_deck_id p i) = Py.zfill 5 (Py.str i) /\
  Py.contains "@" (format_deck_id p i) = true /\
  Py.truthy (format_deck_id p i) = true.
Proof.
  intros Hi. destruct (zfill_str_parts 5 i Hi) as (_ & Hd & _ & _).
  apply all_decimal_no_at in Hd. unfold format_deck_id.
  rewrite prefix_of_join, suffix_of_join, contains_join by done.
  repeat split. by destruct p.
Qed.

Lemma parse_join p q v :
  Py.contains "@" q = false -> Py.isdigit q = true -> Py.int q = Some v ->
  parse (p ++ "@" ++ q) = Some (p, v).
Proof.
  intros Hq Hd Hv. unfold parse.
  rewrite contains_join, suffix_of_split, suffix_of_join, prefix_of_join,
    Hd, Hv by done.
  by destruct p.
Qed.

Lemma parse_format p i : 0 <= i -> parse (format_deck_id p i) = Some (p, i).
Proof.
  intros Hi. destruct (zfill_str_parts 5 i Hi) as (_ & Hd & Ht & Hv).
  apply parse_join.
  - by apply all_decimal_no_at.
  - by apply isdigit_decimal.
  - rewrite int_decimal by done. by rewrite Hv.
Qed.

(** What [parse] returning an index says about a label. *)
Lemma parse_Some label p v :
  parse label = Some (p, v) ->
  label = p ++ "@" ++ suffix_of label /\ p = prefix_of label /\
  Py.contains "@" label = true /\ Py.truthy label = true /\
  Py.isdigit (suffix_of label) = true /\ Py.int (suffix_of label) = Some v.
Proof.
  unfold parse. rewrite suffix_of_split.
  destruct (Py.truthy label) eqn:Ht; [|done].
  destruct (Py.contains "@" label) eqn:Hc; [|done]. simpl.
  destruct (Py.isdigit (suffix_of label)) eqn:Hd; [|done].
  destruct (Py.int (suffix_of label)) as [v'|] eqn:Hv; [|done].
  intros [= <- <-]. by destruct (label_prefix_suffix label Hc).
Qed.

(** [10 ** 4300] is far above the indices that five digits hold. *)
Lemma str_limit_large : 100000 < Py.str_limit.
Proof.
  unfold Py.str_limit, Py.max_str_digits.
  apply Z.lt_le_trans with (10 ^ 6); [reflexivity|].
  apply Z.pow_le_mono_r; lia.
Qed.

(** Below the limit of [str] the f-string gives [format_deck_id]. *)
Lemma format_deck_id_limited_small p i :
  Z.abs i < Py.str_limit ->
  format_deck_id_limited p i = Ok (format_deck_id p i).
Proof.
  intros Hi. unfold format_deck_id_limited, Py.str_limited.
  by destruct (Z.ltb_spec (Z.abs i) Py.str_limit); [|lia].
Qed.

(** From the limit on, [str] raises and no label is formatted. *)
Lemma format_deck_id_limited_large p i :
  Py.str_limit <= Z.abs i ->
  format_deck_id_limited p i = Raise ValueError.
Proof.
  intros Hi. unfold format_deck_id_limited, Py.str_limited.
  by destruct (Z.ltb_spec (Z.abs i) Py.str_limit); [lia|].
Qed.

(** C7, as the code has it.  For every prefix [p] and every index [i] with
    [1 <= i < 10 ** 4300], the f-string formats a label (the limit of [str]
    is not reached), and reading that label [p@<i zero-padded to 5>] back
    (cut at the last ['@'], suffix read as an integer) gives exactly
    [(p, i)].  The formatted index is [str i] preceded by [5 - len(str i)]
    zeros: it has five characters below 100000 and is [str i] itself, in
    full, from 10000 on. *)
Theorem codec_round_trip (p : string) (i : Z) :
  1 <= i -> i < Py.str_limit ->
  format_deck_id_limited p i = Ok (format_deck_id p i) /\
  parse (format_deck_id p i) = Some (p, i) /\
  format_deck_id p i =
    p ++ "@" ++ Py.zeros (5 - String.length (Py.str i)) ++ Py.str i /\
  (i < 100000 -> String.length (Py.zfill 5 (Py.str i)) = 5%nat) /\
  (10000 <= i -> Py.zfill 5 (Py.str i) = Py.str i).
Proof.
  intros Hi Hlim.
  split; [apply format_deck_id_limited_small; lia|].
  split; [apply parse_format; lia|].
  destruct (zfill_str_parts 5 i ltac:(lia)) as (Hz & _).
  split; [unfold format_deck_id; by rewrite Hz|].
  rewrite Hz, length_append, length_zeros. rewrite str_nonneg_eq by lia.
  split.
  - intros Hlt.
    pose proof (str_nonneg_length_le i ltac:(lia) 4%nat ltac:(simpl; lia)).
    lia.
  - intros Hge.
    pose proof (str_nonneg_length_gt i ltac:(lia) 4%nat ltac:(simpl; lia)).
    replace (5 - String.length (Py.str_nonneg i))%nat with 0%nat by lia.
    done.
Qed.

Lemma codec_round_trip_witness :
  format_deck_id_limited "Vocabulary" 3 = Ok "Vocabulary@00003" /\
  parse (format_deck_id "Vocabulary" 3) = Some ("Vocabulary", 3).
Proof.
  destruct (codec_round_trip "Vocabulary" 3 ltac:(lia)
              ltac:(pose proof str_limit_large; lia)) as (H0 & H1 & _).
  split; [|exact H1]. rewrite H0. reflexivity.
Defined.

(** C7 as stated fails: [10 ** 4300] is an index [>= 1], yet [str] raises
    [ValueError] for it, so no label is formatted and nothing can be read
    back.  [get_max_deck_index] returns [10 ** 4300 - 1] from a stored label
    whose suffix is 4300 nines, and the next index is then [10 ** 4300]. *)
Lemma codec_round_trip_counterexample :
  1 <= Py.str_limit /\
  format_deck_id_limited "Vocabulary" Py.str_limit = Raise ValueError.
Proof.
  pose proof str_limit_large as Hlarge.
  split; [lia|]. apply format_deck_id_limited_large. lia.
Qed.

End Codec.

(** ** Swapping two labels *)

Section Swap.

Lemma store_fields nid v col :
  fields (store nid v col) = <[nid := v]> (fields col).
Proof. done. Qed.

Lemma store_updates nid v col :
  updates (store nid v col) = (nid, v) :: updates col.
Proof. done. Qed.

(** The two labels are read before anything is written. *)
Lemma swap_run col a b la lb :
  fields col !! card_nid a = Some la ->
  fields col !! card_nid b = Some lb ->
  update_deck_ids_after_swap a b col =
  if negb (String.eqb (prefix_of la) (prefix_of lb)) then (col, Ok false)
  else (store (card_nid b) (prefix_of lb ++ "@" ++ suffix_of la)
          (store (card_nid a) (prefix_of la ++ "@" ++ suffix_of lb) col),
        Ok true).
Proof.
  intros Ha Hb.
  unfold update_deck_ids_after_swap, mbind, M_bind, card_note, get_note,
    lift, getitem, setitem, update_note, mret, M_ret; simpl.
  rewrite Ha, Hb; simpl.
  fold (prefix_of la) (prefix_of lb) (suffix_of la) (suffix_of lb).
  by destruct (String.eqb (prefix_of la) (prefix_of lb)).
Qed.

Lemma swap_absent col a b :
  fields col !! card_nid a = None \/ fields col !! card_nid b = None ->
  update_deck_ids_after_swap a b col = (col, Raise KeyError).
Proof.
  unfold update_deck_ids_after_swap, mbind, M_bind, card_note, get_note,
    lift, getitem, setitem, update_note, mret, M_ret; simpl.
  destruct (fields col !! card_nid a) as [la|],
    (fields col !! card_nid b) as [lb|]; simpl; try done;
    intros [?|?]; done.
Qed.

(** C2, as the code has it.  With both labels present and different
    prefixes (the text before the last ['@'], or the whole label without
    one), the swap returns [False] and writes nothing.  With a label absent
    it raises [KeyError], also without writing. *)
Theorem swap_guard (col : Col) (a b : Card) :
  (forall la lb,
      fields col !! card_nid a = Some la ->
      fields col !! card_nid b = Some lb ->
      prefix_of la <> prefix_of lb ->
      update_deck_ids_after_swap a b col = (col, Ok false)) /\
  (fields col !! card_nid a = None \/ fields col !! card_nid b = None ->
   update_deck_ids_after_swap a b col = (col, Raise KeyError)).
Proof.
  split; [|apply swap_absent].
  intros la lb Ha Hb Hne. rewrite (swap_run col a b la lb Ha Hb).
  apply String.eqb_neq in Hne. by rewrite Hne.
Qed.

Lemma swap_guard_witness :
  let col := example_col "History" [] id
               [(1%N, "History@00002"); (2%N, "Science@00001")] in
  update_deck_ids_after_swap (mkCard 1 1) (mkCard 2 2) col = (col, Ok false).
Proof.
  intros col.
  apply (proj1 (swap_guard col (mkCard 1 1) (mkCard 2 2))
           "History@00002" "Science@00001").
  - reflexivity.
  - reflexivity.
  - vm_compute. discriminate.
Defined.

(** C2 as stated fails: two labels without ['@'] are malformed, yet their
    prefixes are the whole labels, so equal labels are swapped, and an absent
    label makes the swap raise instead of returning [False]. *)
Lemma swap_guard_counterexample :
  let col := example_col "D" [] id [(1%N, "x"); (2%N, "x")] in
  parse "x" = None /\
  snd (update_deck_ids_after_swap (mkCard 1 1) (mkCard 2 2) col) = Ok true /\
  updates (fst (update_deck_ids_after_swap (mkCard 1 1) (mkCard 2 2) col)) =
    [(2%N, "x@x"); (1%N, "x@x")] /\
  snd (update_deck_ids_after_swap (mkCard 1 1) (mkCard 3 3) col) =
    Raise KeyError.
Proof. by vm_compute. Qed.

(** C3.  When both labels parse and have the same prefix [p], the swap
    returns [True] and persists exactly two notes: first [a]'s with the
    label [p@<former suffix of b>], then [b]'s with [p@<former suffix of
    a>].  Afterwards [a] parses to [b]'s former index and [b] to [a]'s, both
    still with prefix [p]. *)
Theorem swap_exchanges_suffixes (col : Col) (a b : Card) (la lb p : string)
    (ia ib : Z) :
  fields col !! card_nid a = Some la ->
  fields col !! card_nid b = Some lb ->
  parse la = Some (p, ia) ->
  parse lb = Some (p, ib) ->
  let col' := fst (update_deck_ids_after_swap a b col) in
  let new_a := p ++ "@" ++ suffix_of lb in
  let new_b := p ++ "@" ++ suffix_of la in
  snd (update_deck_ids_after_swap a b col) = Ok true /\
  updates col' = (card_nid b, new_b) :: (card_nid a, new_a) :: updates col /\
  fields col' !! card_nid a = Some new_a /\
  fields col' !! card_nid b = Some new_b /\
  (forall n, n <> card_nid a -> n <> card_nid b ->
             fields col' !! n = fields col !! n) /\
  parse new_a = Some (p, ib) /\
  parse new_b = Some (p, ia).
Proof.
  intros Ha Hb Pa Pb col' new_a new_b. subst col'.
  rewrite (swap_run col a b la lb Ha Hb).
  apply parse_Some in Pa as (Ea & Epa & _ & _ & Hda & Hia).
  apply parse_Some in Pb as (Eb & Epb & _ & _ & Hdb & Hib).
  rewrite <- Epa, <- Epb, String.eqb_refl. simpl.
  fold new_a new_b. rewrite !lookup_insert.
  repeat split.
  - destruct (decide (card_nid b = card_nid a)) as [E|]; [|by rewrite decide_True].
    rewrite E in Hb. unfold new_a, new_b. congruence.
  - by rewrite decide_True.
  - intros n Hna Hnb. rewrite lookup_insert.
    rewrite decide_False by done. rewrite lookup_insert.
    by rewrite decide_False.
  - apply parse_join; [apply suffix_of_no_at|done..].
  - apply parse_join; [apply suffix_of_no_at|done..].
Qed.

Lemma swap_exchanges_suffixes_witness :
  let col := example_col "History" [] id
               [(1%N, "History@00002"); (2%N, "History@00003")] in
  updates (fst (update_deck_ids_after_swap (mkCard 1 1) (mkCard 2 2) col)) =
    [(2%N, "History@00002"); (1%N, "History@00003")].
Proof.
  intros col.
  exact (proj1 (proj2 (swap_exchanges_suffixes col (mkCard 1 1) (mkCard 2 2)
    "History@00002" "History@00003" "History" 2 3
    eq_refl eq_refl eq_refl eq_refl))).
Defined.

End Swap.

(** ** Moving a card in the visible list *)

Section Move.

Lemma index_None x l : Py.index x l = None <-> x ∉ l.
Proof.
  induction l as [|y l IH]; simpl.
  - split; [intros _; apply not_elem_of_nil|done].
  - destruct (N.eqb_spec y x) as [->|Hne].
    + split; [done|]. intros []. left.
    + rewrite not_elem_of_cons. destruct (Py.index x l); simpl.
      * split; [done|]. intros [_ H]. by apply IH in H.
      * split; [|done]. intros _. split; [done|]. by apply IH.
Qed.

(** C10.  For a card id that is not in the visible list, both moves raise
    [ValueError] (from [list.index]) and touch nothing.  For an id whose
    position is the first one, [move_card_up] returns [False]; for an id
    whose position is the last one, [move_card_down] returns [False]; in
    both cases the list and the collection are unchanged. *)
Theorem move_card_edges (col : Col) (id : N) (l : list N) :
  (id ∉ l ->
   move_card_up id l col = (col, Raise ValueError) /\
   move_card_down id l col = (col, Raise ValueError)) /\
  (Py.index id l = Some 0%nat ->
   move_card_up id l col = (col, Ok (false, l))) /\
  (Py.index id l = Some (pred (length l)) ->
   move_card_down id l col = (col, Ok (false, l))).
Proof.
  unfold move_card_up, move_card_down. repeat split.
  - apply index_None in H. by rewrite H.
  - apply index_None in H. by rewrite H.
  - intros ->. done.
  - intros ->. destruct (Z.ltb_spec (Z.of_nat (pred (length l)))
                           (Z.of_nat (length l) - 1)); [lia|done].
Qed.

Lemma move_card_edges_witness :
  let col := example_col "History" [] id
               [(1%N, "History@00002"); (2%N, "History@00003")] in
  move_card_up 3 [1; 2]%N col = (col, Raise ValueError) /\
  move_card_down 3 [1; 2]%N col = (col, Raise ValueError) /\
  move_card_up 1 [1; 2]%N col = (col, Ok (false, [1; 2]%N)) /\
  move_card_down 2 [1; 2]%N col = (col, Ok (false, [1; 2]%N)).
Proof.
  intros col.
  destruct (move_card_edges col 3 [1; 2]%N) as (H3 & _ & _).
  destruct (move_card_edges col 1 [1; 2]%N) as (_ & H1 & _).
  destruct (move_card_edges col 2 [1; 2]%N) as (_ & _ & H2).
  destruct H3 as [H3u H3d].
  { rewrite !not_elem_of_cons. repeat split; try discriminate.
    apply not_elem_of_nil. }
  split; [exact H3u|]. split; [exact H3d|].
  split; [apply H1 | apply H2]; reflexivity.
Defined.

End Move.

(** ** The stable sort behind [sorted] *)

Section SortFacts.
Context {K A : Type} (leb : K -> K -> bool).
Context (leb_total : forall a b, leb a b = true \/ leb b a = true).
Context (leb_trans : forall a b c,
  leb a b = true -> leb b c = true -> leb a c = true).

#[local] Abbreviation key_le := (key_le leb).

Lemma insert_sorted_perm (x : K * A) l : Py.insert_sorted leb x l ≡ₚ x :: l.
Proof.
  induction l as [|y l IH]; simpl; [done|].
  destruct (leb (fst x) (fst y)); [done|].
  rewrite IH. apply Permutation_swap.
Qed.

Lemma sort_decorated_perm (l : list (K * A)) : Py.sort_decorated leb l ≡ₚ l.
Proof.
  induction l as [|x l IH]; simpl; [done|].
  by rewrite insert_sorted_perm, IH.
Qed.

Lemma insert_sorted_sorted (x : K * A) l :
  StronglySorted key_le l -> StronglySorted key_le (Py.insert_sorted leb x l).
Proof.
  induction 1 as [|y l Hl IH Hy]; simpl.
  - repeat constructor.
  - destruct (leb (fst x) (fst y)) eqn:E.
    + constructor; [by constructor|]. constructor; [done|].
      eapply Forall_impl; [exact Hy|]. intros z Hz. unfold key_le in *. eauto.
    + constructor; [done|]. rewrite insert_sorted_perm.
      constructor; [|done]. unfold key_le.
      destruct (leb_total (fst x) (fst y)); congruence.
Qed.

Lemma sort_decorated_sorted (l : list (K * A)) : StronglySorted key_le (Py.sort_decorated leb l).
Proof.
  induction l as [|x l IH]; simpl; [constructor|].
  by apply insert_sorted_sorted.
Qed.

(** Inserting below every element puts the new element in front: a list
    that is already ascending is left as it is. *)
Lemma sort_decorated_id (l : list (K * A)) :
  StronglySorted key_le l -> Py.sort_decorated leb l = l.
Proof.
  induction 1 as [|x l Hl IH Hx]; simpl; [done|]. rewrite IH.
  destruct l as [|y l]; simpl; [done|].
  apply Forall_cons in Hx as [Hxy _]. unfold key_le in Hxy. by rewrite Hxy.
Qed.

(** Sorting and then keeping the elements that satisfy [P] is the same as
    keeping them first and sorting afterwards: the sort never changes the
    relative order of the elements of a sub-collection. *)
Lemma filter_insert_sorted (P : K * A -> Prop) `{!forall x, Decision (P x)}
    x l :
  StronglySorted key_le l ->
  filter P (Py.insert_sorted leb x l) =
  if decide (P x) then Py.insert_sorted leb x (filter P l) else filter P l.
Proof.
  induction 1 as [|y l Hl IH Hy]; simpl.
  - rewrite filter_cons, filter_nil. by destruct (decide (P x)).
  - destruct (leb (fst x) (fst y)) eqn:E.
    + rewrite (filter_cons _ x). destruct (decide (P x)) as [Hx|Hx]; [|done].
      rewrite (filter_cons _ y). destruct (decide (P y)) as [Hpy|Hpy].
      { simpl. by rewrite E. }
      assert (Forall (fun z => leb (fst x) (fst z) = true) (filter P l)) as Hall.
      { apply Forall_forall. intros z [_ Hz]%list_elem_of_filter.
        rewrite Forall_forall in Hy. specialize (Hy z Hz).
        unfold key_le in Hy. eauto. }
      destruct (filter P l) as [|z l']; simpl; [done|].
      apply Forall_cons in Hall as [-> _]. done.
    + rewrite !(filter_cons _ y), IH.
      destruct (decide (P y)) as [Hpy|Hpy]; destruct (decide (P x)); try done.
      simpl. by rewrite E.
Qed.

Lemma filter_sort_decorated (P : K * A -> Prop) `{!forall x, Decision (P x)}
    l :
  filter P (Py.sort_decorated leb l) = Py.sort_decorated leb (filter P l).
Proof.
  induction l as [|x l IH]; simpl; [done|].
  rewrite filter_insert_sorted by apply sort_decorated_sorted.
  rewrite filter_cons, IH. by destruct (decide (P x)).
Qed.

Lemma sorted_perm (keys : list K) (l : list A) :
  length keys = length l -> Py.sorted leb (zip keys l) ≡ₚ l.
Proof.
  intros Hlen. unfold Py.sorted. rewrite sort_decorated_perm.
  rewrite snd_zip by lia. done.
Qed.

End SortFacts.

(** ** Running the monad *)

Ltac run :=
  unfold mbind, M_bind, mret, M_ret, lift, raise, try_except, cids,
    deck_name_of, find_notes, get_card, card_note, get_note,
    first_card_deck, update_note, int_M; simpl.

Section Reorder.

Lemma int_empty : Py.int "" = None.
Proof. reflexivity. Qed.

Lemma suffix_of_empty : suffix_of "" = "".
Proof. reflexivity. Qed.

Lemma sort_key_Some col cid k :
  sort_key col cid = Some k ->
  exists v, label_of col cid = Some v /\ Py.int (suffix_of v) = Some k /\
            Py.truthy v = true.
Proof.
  unfold sort_key. destruct (label_of col cid) as [v|]; simpl; [|done].
  intros Hk. exists v. repeat split; [done|].
  destruct v; [|done]. by rewrite suffix_of_empty, int_empty in Hk.
Qed.

(** The sort key reads the collection and leaves it as it is; it raises
    exactly when the card has no sort key. *)
Lemma reorder_key_run col cid :
  reorder_key cid col =
  (col, match label_of col cid with
        | None => Raise KeyError
        | Some v => match Py.int (suffix_of v) with
                    | Some k => Ok k
                    | None => Raise ValueError
                    end
        end).
Proof.
  unfold reorder_key, label_of, getitem. run.
  destruct (fields col !! cards_nid col cid) as [v|]; simpl; [|done].
  rewrite suffix_of_split. by destruct (Py.int (suffix_of v)).
Qed.

Lemma map_M_cons {A B} (f : A -> M B) x l col :
  map_M f (x :: l) col =
  match f x col with
  | (col', Ok y) =>
      match map_M f l col' with
      | (col'', Ok ys) => (col'', Ok (y :: ys))
      | (col'', Raise e) => (col'', Raise e)
      end
  | (col', Raise e) => (col', Raise e)
  end.
Proof. reflexivity. Qed.

Lemma reorder_key_sort_key col cid :
  reorder_key cid col =
  (col, match sort_key col cid with
        | Some k => Ok k
        | None => Raise (match label_of col cid with
                       | Some _ => ValueError
                       | None => KeyError
                       end)
        end).
Proof.
  rewrite reorder_key_run. unfold sort_key.
  destruct (label_of col cid) as [v|]; simpl; [|done].
  by destruct (Py.int (suffix_of v)).
Qed.

Lemma map_M_reorder_key col l :
  match mapM (sort_key col) l with
  | Some keys => map_M reorder_key l col = (col, Ok keys)
  | None => exists e, map_M reorder_key l col = (col, Raise e)
  end.
Proof.
  induction l as [|cid l IH]; [done|].
  rewrite map_M_cons, reorder_key_sort_key.
  change (mapM (sort_key col) (cid :: l)) with
    (y ← sort_key col cid; k ← mapM (sort_key col) l; mret (y :: k)).
  destruct (sort_key col cid) as [k|]; simpl; [|by eexists].
  destruct (mapM (sort_key col) l) as [keys|]; simpl.
  - by rewrite IH.
  - destruct IH as [e ->]. by eexists.
Qed.

Lemma renumber_static col0 col p :
  cards_nid (renumber col0 col p) = cards_nid col /\
  decks_cids (renumber col0 col p) = decks_cids col /\
  decks_name (renumber col0 col p) = decks_name col.
Proof. done. Qed.

(** The write loop, as long as every card it meets has a non-empty label
    whose prefix is the one the card had at the start. *)
Lemma reorder_loop_run col0 l : forall col i,
  cards_nid col = cards_nid col0 ->
  Forall (fun cid => exists v,
            fields col !! cards_nid col0 cid = Some v /\
            Py.truthy v = true /\
            prefix_of v = prefix_of (default "" (label_of col0 cid))) l ->
  0 <= i ->
  reorder_loop i l col = (foldl (renumber col0) col (enumerate i l), Ok tt).
Proof.
  induction l as [|cid l IH]; intros col i Hnid Hall Hi; simpl; [done|].
  apply Forall_cons in Hall as [(v & Hv & Ht & Hp) Hall].
  unfold deck_id_or_none, has_deck_id, setitem. run.
  rewrite Hnid, Hv; simpl. rewrite Ht; simpl.
  fold (prefix_of v). rewrite Hp.
  change (store (cards_nid col0 cid) _ col) with (renumber col0 col (i, cid)).
  apply IH; [done| |lia].
  eapply Forall_impl; [exact Hall|]. intros cid' (v' & Hv' & Ht' & Hp').
  unfold renumber; simpl. rewrite lookup_insert.
  destruct (decide (cards_nid col0 cid = cards_nid col0 cid')) as [E|]; [|eauto].
  eexists. split; [done|].
  destruct (format_deck_id_parts
              (prefix_of (default "" (label_of col0 cid))) i Hi)
    as (-> & _ & _ & ->).
  split; [done|]. unfold label_of. by rewrite E.
Qed.

(** What [reorder_deck_ids] does when every card of the deck has a sort
    key: the cards are renumbered from 1 in sorted order. *)
Lemma reorder_deck_ids_sorted col deck_id keys :
  mapM (sort_key col) (decks_cids col deck_id) = Some keys ->
  reorder_deck_ids deck_id col =
  (foldl (renumber col) col (enumerate 1 (sweep_order col deck_id keys)),
   Ok tt).
Proof.
  intros Hkeys. unfold reorder_deck_ids.
  unfold mbind at 1, M_bind at 1, cids, try_except.
  unfold mbind at 1, M_bind at 1.
  pose proof (map_M_reorder_key col (decks_cids col deck_id)) as Hrun.
  rewrite Hkeys in Hrun. rewrite Hrun.
  fold (sweep_order col deck_id keys).
  rewrite (reorder_loop_run col); [done|done| |lia].
  apply Forall_forall. intros cid Hcid.
  assert (cid ∈ decks_cids col deck_id) as Hin.
  { unfold sweep_order in Hcid.
    rewrite sorted_perm in Hcid; [done|].
    apply mapM_Some, Forall2_length in Hkeys. done. }
  apply mapM_Some in Hkeys.
  apply list_elem_of_lookup in Hin as [j Hj].
  destruct (Forall2_lookup_l _ _ _ _ _ Hkeys Hj) as (k & _ & Hk).
  apply sort_key_Some in Hk as (v & Hv & _ & Ht).
  exists v. unfold label_of in *. rewrite Hv. done.
Qed.

(** When some card of the deck has no sort key, the sort raises before the
    first write and the exception is swallowed. *)
Lemma reorder_deck_ids_unsorted col deck_id :
  mapM (sort_key col) (decks_cids col deck_id) = None ->
  reorder_deck_ids deck_id col = (col, Ok tt).
Proof.
  intros Hkeys. unfold reorder_deck_ids.
  unfold mbind at 1, M_bind at 1, cids, try_except.
  unfold mbind at 1, M_bind at 1.
  pose proof (map_M_reorder_key col (decks_cids col deck_id)) as Hrun.
  rewrite Hkeys in Hrun. destruct Hrun as [e ->]. done.
Qed.

End Reorder.

(** ** What the sweep writes, and in which order *)

Section Sweep.

Lemma renumber_updates col0 l : forall col,
  updates (foldl (renumber col0) col l) =
  (rev (renumber_write col0 <$> l) ++ updates col)%list.
Proof.
  induction l as [|p l IH]; intros col; simpl; [done|].
  rewrite IH. change (updates (renumber col0 col p)) with
    (renumber_write col0 p :: updates col).
  by rewrite <- app_assoc.
Qed.

Lemma length_enumerate i l : length (enumerate i l) = length l.
Proof. revert i. induction l as [|x l IH]; intros i; simpl; [done|]. by rewrite IH. Qed.

Lemma enumerate_snd i l : (enumerate i l).*2 = l.
Proof. revert i. induction l as [|x l IH]; intros i; simpl; [done|]. by rewrite IH. Qed.

Lemma enumerate_lookup l : forall i j x,
  l !! j = Some x -> enumerate i l !! j = Some (i + Z.of_nat j, x).
Proof.
  induction l as [|y l IH]; intros i j x; [done|].
  destruct j as [|j]; simpl.
  - intros [= ->]. by rewrite Z.add_0_r.
  - intros H. rewrite (IH (i + 1) j x H). do 2 f_equal. lia.
Qed.

(** The decorated list that [sorted] works on, when every card has a key. *)
Lemma zip_sort_keys col l keys :
  mapM (sort_key col) l = Some keys ->
  zip keys l = (fun c => (default 0 (sort_key col c), c)) <$> l.
Proof.
  intros H%mapM_Some. induction H as [|c k l keys Hk _ IH]; simpl; [done|].
  by rewrite Hk, IH.
Qed.

Lemma Z_leb_total a b : (a <=? b) = true \/ (b <=? a) = true.
Proof. destruct (Z.leb_spec a b), (Z.leb_spec b a); auto; lia. Qed.

Lemma Z_leb_trans a b c :
  (a <=? b) = true -> (b <=? c) = true -> (a <=? c) = true.
Proof. rewrite !Z.leb_le. lia. Qed.

Lemma StronglySorted_fmap_elem {A B} (R1 : relation A) (R2 : relation B)
    (f : A -> B) l :
  (forall x y, x ∈ l -> y ∈ l -> R1 x y -> R2 (f x) (f y)) ->
  StronglySorted R1 l -> StronglySorted R2 (f <$> l).
Proof.
  intros HR Hl. induction Hl as [|x l Hl IH Hx]; simpl; constructor.
  - apply IH. intros y z Hy Hz. apply HR; by right.
  - apply Forall_fmap, Forall_forall. intros y Hy. simpl.
    rewrite Forall_forall in Hx. apply HR; [left|by right|by apply Hx].
Qed.

Lemma filter_fmap {A B} (f : A -> B) (P : B -> Prop)
    `{!forall y, Decision (P y)} (l : list A) :
  filter P (f <$> l) = f <$> filter (fun x => P (f x)) l.
Proof.
  induction l as [|x l IH]; [done|].
  rewrite fmap_cons, !filter_cons, IH.
  by destruct (decide (P (f x))).
Qed.

Lemma equal_keys_sorted {A} (k : Z) (l : list (Z * A)) :
  Forall (fun x => x.1 = k) l -> StronglySorted (key_le Z.leb) l.
Proof.
  induction 1 as [|x l Hx Hl IH]; constructor; [done|].
  eapply Forall_impl; [exact Hl|]. intros y Hy. unfold key_le.
  rewrite Hx, Hy. apply Z.leb_refl.
Qed.

(** The order of the sweep: a rearrangement of the deck's cards, ascending
    by sort key, cards with equal keys in their original order. *)
Lemma sweep_order_facts col deck_id keys :
  mapM (sort_key col) (decks_cids col deck_id) = Some keys ->
  sweep_order col deck_id keys ≡ₚ decks_cids col deck_id /\
  StronglySorted
    (fun a b => exists ka kb, sort_key col a = Some ka /\
                              sort_key col b = Some kb /\ ka <= kb)
    (sweep_order col deck_id keys) /\
  (forall k,
     filter (fun c => sort_key col c = Some k) (sweep_order col deck_id keys) =
     filter (fun c => sort_key col c = Some k) (decks_cids col deck_id)).
Proof.
  intros Hkeys. pose proof Hkeys as Hall%mapM_Some.
  set (cards := decks_cids col deck_id) in *.
  set (dec := fun c : N => (default 0 (sort_key col c), c)).
  assert (zip keys cards = dec <$> cards) as Hzip
    by (by apply zip_sort_keys).
  assert (forall c, c ∈ cards -> sort_key col c = Some (dec c).1) as Hkey.
  { intros c [j Hj]%list_elem_of_lookup.
    destruct (Forall2_lookup_l _ _ _ _ _ Hall Hj) as (k & _ & Hk).
    unfold dec; simpl. by rewrite Hk. }
  split; [|split].
  - apply sorted_perm. by apply Forall2_length in Hall.
  - unfold sweep_order, Py.sorted. fold cards. rewrite Hzip.
    eapply StronglySorted_fmap_elem;
      [|apply (sort_decorated_sorted Z.leb Z_leb_total Z_leb_trans)].
    intros x y Hx Hy Hxy.
    rewrite sort_decorated_perm in Hx, Hy.
    apply list_elem_of_fmap in Hx as (cx & -> & Hx).
    apply list_elem_of_fmap in Hy as (cy & -> & Hy).
    exists (dec cx).1, (dec cy).1. simpl.
    split; [by apply Hkey|]. split; [by apply Hkey|].
    by apply Z.leb_le.
  - intros k. unfold sweep_order, Py.sorted. fold cards. rewrite Hzip.
    rewrite filter_fmap.
    rewrite (filter_sort_decorated Z.leb Z_leb_total Z_leb_trans).
    rewrite filter_fmap. simpl.
    rewrite sort_decorated_id.
    + rewrite <- list_fmap_compose. apply list_fmap_id.
    + apply (equal_keys_sorted k), Forall_fmap, Forall_forall.
      intros c [Hc _]%list_elem_of_filter. unfold dec; simpl. by rewrite Hc.
Qed.

End Sweep.

(** ** The sweep: [reorder_deck_ids] *)

Section SweepClaims.







(** C1 at a deck whose two cards belong to one note (a note type with two
    card templates).  The note is written twice, first with position 1 and
    then with position 2: the deck's only label ends with index 2, so the
    indices in use are not [1..N]. *)
Lemma sweep_shared_note_gap :
  let col := example_col "Math" [1; 2]%N (fun _ => 1%N)
               [(1%N, "Math@00001")] in
  parse "Math@00001" = Some ("Math", 1) /\
  map_to_list (fields (fst (reorder_deck_ids 1 col))) =
    [(1%N, "Math@00002")] /\
  updates (fst (reorder_deck_ids 1 col)) =
    [(1%N, "Math@00002"); (1%N, "Math@00001")].
Proof. by vm_compute. Qed.

End SweepClaims.

(** ** The maximum index: [get_max_deck_index] *)

Section MaxIndex.






(** C6 at a deck holding the label ["D@"] followed by U+00B2.  The suffix
    passes [isdigit], [int] rejects it, and the [ValueError] leaves
    [get_max_deck_index] and [add_deck_index_field]. *)
Lemma add_deck_index_field_raises :
  let label := "D@" ++ String superscript_two "" in
  let col := example_col "D" [1]%N id [(1%N, label)] in
  Py.isdigit (suffix_of label) = true /\
  Py.int (suffix_of label) = None /\
  get_max_deck_index 1 col = (col, Raise ValueError) /\
  add_deck_index_field (mkNote 2 (Some "")) 1 col = (col, Raise ValueError).
Proof. by vm_compute. Qed.

End MaxIndex.

(** ** Reconciliation: [verify_and_add_deck_ids] *)

Section Verify.

Lemma verify_key_run col n : verify_key n col = (col, Ok (label_or_empty col n)).
Proof.
  unfold verify_key, has_deck_id, getitem, label_or_empty. run.
  destruct (fields col !! n) as [v|] eqn:E; simpl; by rewrite ?E.
Qed.

Lemma map_M_verify_key col l :
  map_M verify_key l col = (col, Ok (label_or_empty col <$> l)).
Proof.
  induction l as [|n l IH]; [done|].
  by rewrite map_M_cons, verify_key_run, IH.
Qed.

Lemma zip_fmap_self {A B} (f : A -> B) (l : list A) :
  zip (f <$> l) l = (fun x => (f x, x)) <$> l.
Proof. induction l as [|x l IH]; [done|]. by rewrite !fmap_cons, <- IH. Qed.

Lemma fix_label_static col p :
  decks_name (fix_label col p) = decks_name col /\
  notes_deck (fix_label col p) = notes_deck col /\
  all_note_ids (fix_label col p) = all_note_ids col /\
  decks_cids (fix_label col p) = decks_cids col /\
  cards_nid (fix_label col p) = cards_nid col.
Proof. unfold fix_label. by destruct (decide _). Qed.

Lemma fix_label_labelled col p n :
  labelled col p.1 = true -> labelled (fix_label col p) n = labelled col n.
Proof.
  unfold fix_label, labelled. destruct (decide _); [done|].
  rewrite store_fields, lookup_insert.
  destruct (decide (p.1 = n)) as [->|]; [|done].
  by destruct (fields col !! n).
Qed.

Lemma assign_ext col1 col2 l : forall cnt,
  (forall n, labelled col1 n = labelled col2 n) ->
  decks_name col1 = decks_name col2 ->
  notes_deck col1 = notes_deck col2 ->
  assign col1 cnt l = assign col2 cnt l.
Proof.
  intros cnt Hl Hn Hd. revert cnt.
  induction l as [|n l IH]; intros cnt; simpl; [done|].
  unfold note_group. rewrite Hl, Hn, Hd.
  destruct (labelled col2 n); by rewrite IH.
Qed.

(** The loop visits the notes and fixes each labelled one in turn. *)
Lemma verify_loop_run l : forall cnt col,
  verify_loop cnt l col = (foldl fix_label col (assign col cnt l), Ok tt).
Proof.
  induction l as [|n l IH]; intros cnt col; [done|].
  simpl. unfold has_deck_id, getitem, setitem. run.
  unfold labelled.
  destruct (fields col !! n) as [v|] eqn:Hv; simpl; [|apply IH].
  fold (note_group col n).
  assert (match cnt !! note_group col n with
          | Some k => k + 1 | None => 1 end =
          default 0 (cnt !! note_group col n) + 1) as ->
    by (by destruct (cnt !! note_group col n)).
  set (e := format_deck_id _ _). set (cnt' := <[_ := _]> cnt).
  assert (fix_label col (n, e) =
          if negb (String.eqb v e) then store n e col else col) as Hfix.
  { unfold fix_label; simpl. rewrite Hv.
    destruct (String.eqb_spec v e) as [->|Hne]; simpl.
    - by rewrite decide_True.
    - rewrite decide_False; [done|]. congruence. }
  assert (assign col cnt' l = assign (fix_label col (n, e)) cnt' l) as ->.
  { destruct (fix_label_static col (n, e)) as (? & ? & _).
    apply assign_ext; [|done..].
    intros m. symmetry. apply fix_label_labelled.
    unfold labelled; simpl. by rewrite Hv. }
  rewrite Hfix. destruct (negb (String.eqb v e)); simpl; apply IH.
Qed.

Lemma verify_run col :
  verify_and_add_deck_ids col =
  (foldl fix_label col (assign col ∅ (verify_order col)), Ok tt).
Proof.
  unfold verify_and_add_deck_ids.
  unfold mbind at 1, M_bind at 1, find_notes.
  unfold mbind at 1, M_bind at 1. rewrite map_M_verify_key.
  rewrite zip_fmap_self. apply verify_loop_run.
Qed.

(** The labelled notes, in the order of the visit. *)
Lemma assign_fst col l : forall cnt,
  (assign col cnt l).*1 = filter (fun n => labelled col n = true) l.
Proof.
  induction l as [|n l IH]; intros cnt; simpl; [done|].
  rewrite filter_cons.
  destruct (labelled col n); simpl; rewrite IH; by repeat case_decide.
Qed.

(** The expected label of a note is its group name with its rank among the
    labelled notes of the group, in the order of the visit. *)
Lemma assign_elem col l : forall cnt n e,
  (n, e) ∈ assign col cnt l <->
  exists j : nat,
    filter (in_group col (note_group col n)) l !! j = Some n /\
    e = format_deck_id (note_group col n)
          (default 0 (cnt !! note_group col n) + Z.of_nat j + 1).
Proof.
  induction l as [|m l IH]; intros cnt n e; simpl.
  - split; [by intros ?%elem_of_nil|]. by intros (j & H & _).
  - rewrite filter_cons.
    destruct (labelled col m) eqn:Hm.
    + rewrite elem_of_cons, IH. clear IH.
      set (g := note_group col m). set (c := default 0 (cnt !! g)).
      destruct (decide (g = note_group col n)) as [Hg|Hg].
      * rewrite decide_True by done. rewrite <- Hg.
        rewrite lookup_insert_eq. simpl. split.
        -- intros [[= -> ->]|(j & Hj & ->)].
           ++ exists 0%nat. split; [done|]. f_equal. lia.
           ++ exists (S j). split; [done|]. f_equal. lia.
        -- intros ([|j] & Hj & ->); simpl in Hj.
           ++ left. injection Hj as ->. do 2 f_equal. lia.
           ++ right. exists j. split; [done|]. f_equal. lia.
      * rewrite decide_False by (intros [_ ?]; done).
        rewrite lookup_insert_ne by done. split.
        -- intros [[= -> ->]|H]; [done|exact H].
        -- intros H. by right.
    + rewrite decide_False by (intros [? _]; congruence). apply IH.
Qed.

(** After the visits, every visited note has its expected label and the
    other notes are untouched. *)
Lemma foldl_fix_label_other ps : forall col n,
  n ∉ ps.*1 -> fields (foldl fix_label col ps) !! n = fields col !! n.
Proof.
  induction ps as [|[m e] ps IH]; intros col n Hn; simpl; [done|].
  rewrite fmap_cons, not_elem_of_cons in Hn. destruct Hn as [Hnm Hn].
  rewrite IH by done. unfold fix_label; simpl.
  destruct (decide _); [done|]. rewrite store_fields.
  by rewrite lookup_insert_ne.
Qed.

Lemma foldl_fix_label_elem ps : forall col n e,
  NoDup ps.*1 -> (n, e) ∈ ps ->
  fields (foldl fix_label col ps) !! n = Some e.
Proof.
  induction ps as [|[m e'] ps IH]; intros col n e Hnd Hin; simpl.
  - by apply elem_of_nil in Hin.
  - rewrite fmap_cons in Hnd. apply NoDup_cons in Hnd as [Hm Hnd].
    apply elem_of_cons in Hin as [[= -> ->]|Hin]; [|by apply IH].
    rewrite foldl_fix_label_other by done.
    unfold fix_label; simpl. destruct (decide _) as [E|]; [done|].
    rewrite store_fields. apply lookup_insert_eq.
Qed.

Lemma foldl_fix_label_id ps : forall col,
  (forall n e, (n, e) ∈ ps -> fields col !! n = Some e) ->
  foldl fix_label col ps = col.
Proof.
  induction ps as [|[m e] ps IH]; intros col H; simpl; [done|].
  assert (fix_label col (m, e) = col) as ->.
  { unfold fix_label; simpl. rewrite decide_True; [done|]. apply H. left. }
  apply IH. intros n e' Hin. apply H. by right.
Qed.

Lemma foldl_fix_label_static ps : forall col,
  Forall (fun p => labelled col p.1 = true) ps ->
  decks_name (foldl fix_label col ps) = decks_name col /\
  notes_deck (foldl fix_label col ps) = notes_deck col /\
  all_note_ids (foldl fix_label col ps) = all_note_ids col /\
  (forall n, labelled (foldl fix_label col ps) n = labelled col n).
Proof.
  induction ps as [|p ps IH]; intros col Hall; simpl; [done|].
  apply Forall_cons in Hall as [Hp Hall].
  destruct (fix_label_static col p) as (E1 & E2 & E3 & _).
  destruct (IH (fix_label col p)) as (-> & -> & -> & Hl).
  - eapply Forall_impl; [exact Hall|]. intros q Hq.
    by rewrite fix_label_labelled.
  - repeat split; try done. intros n. rewrite Hl.
    by apply fix_label_labelled.
Qed.

End Verify.

(** ** Text order of formatted labels *)

Section LabelOrder.

#[local] Arguments String.append !_ _ /.

Lemma string_leb_trans (a b c : string) :
  String.leb a b = true -> String.leb b c = true -> String.leb a c = true.
Proof.
  intros H1%Is_true_true H2%Is_true_true. apply Is_true_true.
  exact (transitivity (R := String.le) H1 H2).
Qed.

Lemma compare_refl (s : string) : String.compare s s = Eq.
Proof.
  induction s as [|c s IH]; simpl; [done|].
  unfold Ascii.compare. by rewrite N.compare_refl.
Qed.

Lemma compare_app (p s t : string) :
  String.compare (p ++ s) (p ++ t) = String.compare s t.
Proof.
  induction p as [|c p IH]; simpl; [done|].
  unfold Ascii.compare. by rewrite N.compare_refl.
Qed.

Lemma ascii_compare_digits c d :
  Ascii.compare c d = (Py.digit_value c ?= Py.digit_value d).
Proof.
  unfold Ascii.compare, Py.digit_value, Py.ord.
  destruct (N.compare_spec (N_of_ascii c) (N_of_ascii d)),
    (Z.compare_spec (Z.of_N (N_of_ascii c) - 48) (Z.of_N (N_of_ascii d) - 48));
    try done; lia.
Qed.

Lemma dec_value_split s : forall acc,
  dec_value acc s = acc * 10 ^ Z.of_nat (String.length s) + dec_value 0 s.
Proof.
  induction s as [|c s IH]; intros acc; simpl String.length.
  - simpl. lia.
  - simpl dec_value. rewrite (IH (10 * acc + _)), (IH (10 * 0 + _)).
    rewrite Nat2Z.inj_succ, Z.pow_succ_r by lia. ring.
Qed.

Lemma dec_value_bound s :
  all_decimal s = true ->
  0 <= dec_value 0 s < 10 ^ Z.of_nat (String.length s).
Proof.
  induction s as [|c s IH]; simpl String.length.
  - simpl. lia.
  - simpl. intros [Hc Hs]%andb_true_iff. specialize (IH Hs).
    apply is_decimal_facts in Hc as (_ & _ & _ & _ & Hc & _).
    rewrite dec_value_split.
    rewrite Nat2Z.inj_succ, Z.pow_succ_r by lia. nia.
Qed.

(** Strings of decimal digits of one length compare as their values. *)
Lemma compare_decimal s : forall t,
  all_decimal s = true -> all_decimal t = true ->
  String.length s = String.length t ->
  String.compare s t = (dec_value 0 s ?= dec_value 0 t).
Proof.
  induction s as [|c s IH]; intros [|d t]; simpl; try done.
  intros [Hc Hs]%andb_true_iff [Hd Ht]%andb_true_iff [= Hlen].
  rewrite (dec_value_split s), (dec_value_split t), <- Hlen.
  pose proof (dec_value_bound s Hs) as Bs.
  pose proof (dec_value_bound t Ht) as Bt. rewrite <- Hlen in Bt.
  rewrite ascii_compare_digits.
  set (x := Py.digit_value c) in *. set (y := Py.digit_value d) in *.
  set (P := 10 ^ Z.of_nat (String.length s)) in *.
  replace (10 * 0 + x) with x by lia. replace (10 * 0 + y) with y by lia.
  destruct (Z.compare_spec x y) as [->|Hlt|Hgt].
  - rewrite (IH t Hs Ht Hlen). symmetry. apply Z.add_compare_mono_l.
  - symmetry. apply Z.compare_lt_iff. nia.
  - symmetry. apply Z.compare_gt_iff. nia.
Qed.

(** Below 100000 the zero-padded indices are five digits long, so the
    labels of one group are in text order exactly when their indices are in
    numeric order. *)
Lemma format_deck_id_leb g a b :
  0 <= a <= b -> b < 100000 ->
  String.leb (format_deck_id g a) (format_deck_id g b) = true.
Proof.
  intros Hab Hb. unfold String.leb, format_deck_id.
  rewrite compare_app, compare_app.
  destruct (zfill_str_parts 5 a ltac:(lia)) as (Ea & Da & _ & Va).
  destruct (zfill_str_parts 5 b ltac:(lia)) as (Eb & Db & _ & Vb).
  rewrite compare_decimal, Va, Vb; [| done | done |].
  - destruct (Z.compare_spec a b); [done|done|lia].
  - rewrite Ea, Eb, !length_append, !length_zeros.
    rewrite !str_nonneg_eq by lia.
    pose proof (str_nonneg_length_le a ltac:(lia) 4%nat ltac:(simpl; lia)).
    pose proof (str_nonneg_length_le b ltac:(lia) 4%nat ltac:(simpl; lia)).
    lia.
Qed.

Lemma format_deck_id_inj g a b :
  0 <= a -> 0 <= b -> format_deck_id g a = format_deck_id g b -> a = b.
Proof.
  intros Ha Hb E. pose proof (parse_format g a Ha) as Pa.
  rewrite E, parse_format in Pa by done. congruence.
Qed.

End LabelOrder.

(** ** Running the reconciliation twice *)

Section Idempotence.

Lemma StronglySorted_lookup {A} (R : relation A) (l : list A) :
  (forall i j x y, (i < j)%nat -> l !! i = Some x -> l !! j = Some y -> R x y) ->
  StronglySorted R l.
Proof.
  induction l as [|a l IH]; intros H; constructor.
  - apply IH. intros i j x y Hij Hi Hj. by apply (H (S i) (S j)); [lia|..].
  - apply Forall_forall. intros y [j Hj]%list_elem_of_lookup.
    by apply (H 0%nat (S j)); [lia|..].
Qed.

Lemma verify_order_perm c : verify_order c ≡ₚ all_note_ids c.
Proof.
  unfold verify_order, Py.sorted. rewrite sort_decorated_perm.
  rewrite <- list_fmap_compose. by rewrite list_fmap_id.
Qed.

(** Restricted to any set of notes, the visiting order is the sorted order
    of that set. *)
Lemma filter_verify_order c (P : N -> Prop) `{!forall n, Decision (P n)} :
  filter P (verify_order c) =
  (Py.sort_decorated String.leb
     ((fun n => (label_or_empty c n, n)) <$> filter P (all_note_ids c))).*2.
Proof.
  unfold verify_order, Py.sorted.
  rewrite filter_fmap.
  rewrite (filter_sort_decorated String.leb String.leb_total string_leb_trans).
  by rewrite filter_fmap.
Qed.

Lemma assign_labelled c l cnt :
  Forall (fun p => labelled c p.1 = true) (assign c cnt l).
Proof.
  apply Forall_forall. intros [n e] Hin.
  assert (n ∈ (assign c cnt l).*1) as Hn.
  { apply list_elem_of_fmap. by exists (n, e). }
  rewrite assign_fst in Hn. by apply list_elem_of_filter in Hn as [? _].
Qed.

Context (col : Col).
Hypothesis notes_nodup : NoDup (all_note_ids col).
Hypothesis groups_small : forall g,
  Z.of_nat (length (filter (in_group col g) (all_note_ids col))) < 100000.

#[local] Abbreviation col1 :=
  (foldl fix_label col (assign col ∅ (verify_order col))).

Lemma first_run_static :
  decks_name col1 = decks_name col /\
  notes_deck col1 = notes_deck col /\
  all_note_ids col1 = all_note_ids col /\
  (forall n, labelled col1 n = labelled col n).
Proof. apply foldl_fix_label_static, assign_labelled. Qed.

(** After the first run, the [j]-th labelled note of group [g] in the
    visiting order has the label [g@<j+1>]. *)
Lemma first_run_label g j n :
  filter (in_group col g) (verify_order col) !! j = Some n ->
  fields col1 !! n = Some (format_deck_id g (Z.of_nat j + 1)).
Proof.
  intros Hj.
  assert (note_group col n = g) as Hg.
  { apply list_elem_of_lookup_2, list_elem_of_filter in Hj as [[_ ?] _].
    done. }
  apply foldl_fix_label_elem.
  - rewrite assign_fst. apply NoDup_filter.
    by rewrite verify_order_perm.
  - apply assign_elem. exists j. rewrite Hg. split; [done|].
    rewrite lookup_empty. simpl. by rewrite Z.add_0_l.
Qed.

(** The second run visits the labelled notes of each group in the order of
    the first run. *)
Lemma second_run_order g :
  filter (in_group col g) (verify_order col1) =
  filter (in_group col g) (verify_order col).
Proof.
  destruct first_run_static as (_ & _ & Hids & _).
  set (L := filter (in_group col g) (verify_order col)).
  set (D2 := fun n : N => (label_or_empty col1 n, n)).
  assert (L ≡ₚ filter (in_group col g) (all_note_ids col)) as HLperm.
  { unfold L. by rewrite verify_order_perm. }
  assert (forall j n, L !! j = Some n ->
            label_or_empty col1 n = format_deck_id g (Z.of_nat j + 1))
    as HLkey.
  { intros j n Hj. unfold label_or_empty.
    by rewrite (first_run_label g j n Hj). }
  assert (Z.of_nat (length L) < 100000) as HLlen.
  { rewrite (Permutation_length HLperm). apply groups_small. }
  rewrite filter_verify_order, Hids. fold D2.
  assert (Py.sort_decorated String.leb
            (D2 <$> filter (in_group col g) (all_note_ids col)) = D2 <$> L)
    as ->.
  { apply (StronglySorted_unique_strong (key_le String.leb)).
    - intros x1 x2 Hx1 Hx2 H12 H21.
      rewrite sort_decorated_perm, <- HLperm in Hx1.
      apply list_elem_of_fmap in Hx1 as (n1 & -> & [j1 Hn1]%list_elem_of_lookup).
      apply list_elem_of_fmap in Hx2 as (n2 & -> & [j2 Hn2]%list_elem_of_lookup).
      unfold key_le, D2 in H12, H21. simpl in H12, H21.
      pose proof (String.leb_antisym _ _ H12 H21) as E.
      rewrite (HLkey _ _ Hn1), (HLkey _ _ Hn2) in E.
      apply format_deck_id_inj in E; [|lia..].
      assert (j1 = j2) as -> by lia. congruence.
    - apply sort_decorated_sorted;
        [apply String.leb_total | apply string_leb_trans].
    - apply StronglySorted_lookup. intros i j x y Hij Hi Hj.
      apply list_lookup_fmap_Some in Hi as (ni & -> & Hi).
      apply list_lookup_fmap_Some in Hj as (nj & -> & Hj).
      unfold key_le, D2. simpl.
      rewrite (HLkey _ _ Hi), (HLkey _ _ Hj).
      apply lookup_lt_Some in Hj.
      apply format_deck_id_leb; lia.
    - by rewrite sort_decorated_perm, HLperm. }
  rewrite <- list_fmap_compose. apply list_fmap_id.
Qed.

(** The second run finds every label as expected. *)
Lemma second_run_unchanged :
  verify_and_add_deck_ids col1 = (col1, Ok tt).
Proof.
  rewrite verify_run. f_equal. apply foldl_fix_label_id.
  intros n e Hin.
  destruct first_run_static as (Hname & Hdeck & _ & Hlab).
  rewrite (assign_ext col1 col) in Hin by done.
  apply assign_elem in Hin as (j & Hj & ->).
  rewrite second_run_order in Hj.
  rewrite lookup_empty. simpl. rewrite Z.add_0_l.
  by apply first_run_label.
Qed.

End Idempotence.

Section Reconciliation.

(** C5, as the code has it.  When [find_notes] lists every note once and
    fewer than 100000 notes carrying the field are counted under each deck
    name, a second run of [verify_and_add_deck_ids] right after a first one
    leaves the collection as it is: no field changes and no [update_note]
    happens. *)
Theorem verify_twice_writes_nothing (col : Col) :
  NoDup (all_note_ids col) ->
  (forall g,
     Z.of_nat (length (filter (in_group col g) (all_note_ids col))) < 100000) ->
  let col1 := fst (verify_and_add_deck_ids col) in
  verify_and_add_deck_ids col1 = (col1, Ok tt) /\
  updates (fst (verify_and_add_deck_ids col1)) = updates col1.
Proof.
  intros Hnd Hsmall col1. subst col1. rewrite (verify_run col). simpl.
  by rewrite (second_run_unchanged col Hnd Hsmall).
Qed.

Lemma verify_twice_writes_nothing_witness :
  updates (fst (verify_and_add_deck_ids art_col)) =
    [(1%N, "Art@00002"); (2%N, "Art@00001")] /\
  updates (fst (verify_and_add_deck_ids
                  (fst (verify_and_add_deck_ids art_col)))) =
    [(1%N, "Art@00002"); (2%N, "Art@00001")].
Proof.
  destruct (verify_twice_writes_nothing art_col) as [_ H].
  - apply (bool_decide_unpack _). reflexivity.
  - intros g. pose proof (length_filter (in_group art_col g)
                            (all_note_ids art_col)) as Hlen.
    change (length (all_note_ids art_col)) with 3%nat in Hlen. lia.
  - split; [reflexivity|]. rewrite H. reflexivity.
Defined.

End Reconciliation.

(** ** A deck of 100000 notes *)

Section LargeGroup.

Lemma foldl_fix_label_length ps : forall c,
  (length (updates c) <= length (updates (foldl fix_label c ps)))%nat.
Proof.
  induction ps as [|p ps IH]; intros c; simpl; [done|].
  etrans; [|apply IH]. unfold fix_label.
  destruct (decide _); [done|]. rewrite store_updates. simpl. lia.
Qed.

(** A run that leaves the update log as it was has found every label as
    expected. *)
Lemma foldl_fix_label_quiet ps : forall c,
  updates (foldl fix_label c ps) = updates c ->
  forall n e, (n, e) ∈ ps -> fields c !! n = Some e.
Proof.
  induction ps as [|p ps IH]; intros c H n e Hin.
  - by apply elem_of_nil in Hin.
  - simpl in H. unfold fix_label in H at 2.
    destruct (decide (fields c !! p.1 = Some p.2)) as [Hp|Hp].
    + apply elem_of_cons in Hin as [E|Hin]; [by subst p|]. by apply (IH c).
    + exfalso.
      pose proof (foldl_fix_label_length ps (store p.1 p.2 c)) as Hlen.
      rewrite H, store_updates in Hlen. simpl in Hlen. lia.
Qed.

Lemma StronglySorted_lookup_2 {A} (R : relation A) (l : list A) i j x y :
  StronglySorted R l -> (i < j)%nat ->
  l !! i = Some x -> l !! j = Some y -> R x y.
Proof.
  intros Hl. revert i j. induction Hl as [|a l Hl IH Ha]; intros i j Hij Hi Hj.
  - done.
  - destruct j as [|j]; [lia|]. destruct i as [|i]; simpl in *.
    + injection Hi as ->. rewrite Forall_forall in Ha.
      by apply Ha, list_elem_of_lookup_2 with j.
    + apply (IH i j); [lia|done..].
Qed.

(** In text order [g@100000] comes before [g@99999]. *)
Lemma format_deck_id_wrap g :
  String.leb (format_deck_id g 99999) (format_deck_id g 100000) = false.
Proof.
  unfold String.leb, format_deck_id. rewrite compare_app, compare_app.
  reflexivity.
Qed.

(** From 100000 labelled notes under one deck name on, the second of two
    runs in a row writes. *)
Lemma second_run_writes (col : Col) (g : string) :
  NoDup (all_note_ids col) ->
  100000 <= Z.of_nat (length (filter (in_group col g) (all_note_ids col))) ->
  let col1 := fst (verify_and_add_deck_ids col) in
  updates (fst (verify_and_add_deck_ids col1)) <> updates col1.
Proof.
  intros Hnd Hbig col1 Hquiet. subst col1.
  rewrite (verify_run col) in Hquiet. simpl in Hquiet.
  set (col1 := foldl fix_label col (assign col ∅ (verify_order col))) in *.
  destruct (first_run_static col) as (Hname & Hdeck & Hids & Hlab).
  fold col1 in Hname, Hdeck, Hids, Hlab.
  rewrite (verify_run col1) in Hquiet. simpl in Hquiet.
  rewrite (assign_ext col1 col) in Hquiet by done.
  pose proof (foldl_fix_label_quiet _ _ Hquiet) as Hexp. clear Hquiet.
  set (P := in_group col g) in *.
  set (L := filter P (verify_order col)).
  set (L2 := filter P (verify_order col1)).
  assert (L ≡ₚ filter P (all_note_ids col)) as HL
    by (unfold L; by rewrite verify_order_perm).
  assert (L2 ≡ₚ L) as HL2.
  { unfold L2. by rewrite verify_order_perm, Hids, HL. }
  (* the notes that the first run numbers 99999 and 100000 *)
  destruct (lookup_lt_is_Some_2 L (Z.to_nat 99998)) as [na Hna].
  { rewrite (Permutation_length HL). lia. }
  destruct (lookup_lt_is_Some_2 L (Z.to_nat 99999)) as [nb Hnb].
  { rewrite (Permutation_length HL). lia. }
  pose proof (first_run_label col Hnd g _ _ Hna) as Fa.
  pose proof (first_run_label col Hnd g _ _ Hnb) as Fb.
  fold col1 in Fa, Fb. rewrite Z2Nat.id in Fa, Fb by lia.
  change (99998 + 1) with 99999 in Fa. change (99999 + 1) with 100000 in Fb.
  (* their positions in the second run *)
  assert (forall n k, L !! Z.to_nat (k - 1) = Some n -> 1 <= k ->
            fields col1 !! n = Some (format_deck_id g k) ->
            L2 !! Z.to_nat (k - 1) = Some n) as Hpos.
  { intros n k Hn Hk Fn.
    assert (n ∈ L2) as [j Hj]%list_elem_of_lookup.
    { rewrite HL2. by apply list_elem_of_lookup_2 in Hn. }
    assert (note_group col n = g) as Hg.
    { apply list_elem_of_lookup_2, list_elem_of_filter in Hn as [[_ ?] _].
      done. }
    assert (fields col1 !! n = Some (format_deck_id g (Z.of_nat j + 1))) as Fj.
    { apply Hexp, assign_elem. exists j. rewrite Hg. split; [done|].
      rewrite lookup_empty. simpl. by rewrite Z.add_0_l. }
    rewrite Fn in Fj. injection Fj as Fj.
    apply format_deck_id_inj in Fj; [|lia..].
    replace (Z.to_nat (k - 1)) with j by lia. done. }
  pose proof (Hpos na 99999 Hna ltac:(lia) Fa) as Pa.
  pose proof (Hpos nb 100000 Hnb ltac:(lia) Fb) as Pb.
  (* the second run visits in text order *)
  unfold L2 in Pa, Pb. rewrite filter_verify_order in Pa, Pb.
  apply list_lookup_fmap_Some in Pa as ([ka na'] & Ea & Pa).
  apply list_lookup_fmap_Some in Pb as ([kb nb'] & Eb & Pb).
  simpl in Ea, Eb. subst na' nb'.
  assert (forall k n j,
            Py.sort_decorated String.leb
              ((fun n => (label_or_empty col1 n, n)) <$>
                 filter P (all_note_ids col1)) !! j = Some (k, n) ->
            k = label_or_empty col1 n) as Hkey.
  { intros k n j Hj. apply list_elem_of_lookup_2 in Hj.
    rewrite sort_decorated_perm in Hj.
    by apply list_elem_of_fmap in Hj as (m & [= -> ->] & _). }
  pose proof (Hkey _ _ _ Pa) as Ka. pose proof (Hkey _ _ _ Pb) as Kb.
  unfold label_or_empty in Ka, Kb. rewrite Fa in Ka. rewrite Fb in Kb.
  simpl in Ka, Kb. subst ka kb.
  pose proof (sort_decorated_sorted String.leb String.leb_total
                string_leb_trans
                ((fun n => (label_or_empty col1 n, n)) <$>
                   filter P (all_note_ids col1))) as Hsorted.
  assert (Z.to_nat (99999 - 1) < Z.to_nat (100000 - 1))%nat as Hlt by lia.
  pose proof (StronglySorted_lookup_2 _ _ _ _ _ _ Hsorted Hlt Pa Pb) as Hle.
  unfold key_le in Hle. simpl in Hle.
  by rewrite format_deck_id_wrap in Hle.
Qed.

Lemma N_range_nodup n : NoDup (N_range n).
Proof.
  unfold N_range. apply NoDup_fmap_2; [apply _|apply NoDup_seq].
Qed.

Lemma large_deck_group n :
  filter (in_group (large_deck n) "D") (all_note_ids (large_deck n)) =
  N_range n.
Proof.
  simpl. assert (Forall (in_group (large_deck n) "D") (N_range n)) as H.
  { apply Forall_forall. intros k Hk. split; [|done].
    unfold labelled. simpl.
    rewrite (elem_of_list_to_map_1 _ k ""); [done| |].
    - rewrite <- list_fmap_compose. simpl.
      rewrite list_fmap_id. apply N_range_nodup.
    - apply list_elem_of_fmap. by exists k. }
  induction H as [|k l Hk _ IH]; [done|].
  rewrite filter_cons, decide_True by done. by rewrite IH.
Qed.

(** C5 as stated fails.  With 100000 notes in one deck the first run hands
    out the labels [D@00001 .. D@100000]; in text order [D@100000] comes
    before [D@99999], so the second run visits the notes in another order
    and rewrites some of them. *)
Lemma verify_twice_counterexample :
  let col1 :=
    fst (verify_and_add_deck_ids (large_deck (Z.to_nat 100000))) in
  updates (fst (verify_and_add_deck_ids col1)) <> updates col1.
Proof.
  apply (second_run_writes _ "D").
  - apply N_range_nodup.
  - rewrite large_deck_group. unfold N_range.
    rewrite length_fmap, length_seq. lia.
Qed.

End LargeGroup.

(** ** The sweep on a deck whose cards have distinct notes *)

Section DistinctNotes.

Lemma foldl_renumber_static col0 l : forall col,
  cards_nid (foldl (renumber col0) col l) = cards_nid col /\
  decks_cids (foldl (renumber col0) col l) = decks_cids col /\
  decks_name (foldl (renumber col0) col l) = decks_name col.
Proof.
  induction l as [|p l IH]; intros col; simpl; [done|].
  destruct (IH (renumber col0 col p)) as (-> & -> & ->). done.
Qed.

Lemma foldl_renumber_other col0 l : forall col n,
  n ∉ (cards_nid col0 ∘ snd) <$> l ->
  fields (foldl (renumber col0) col l) !! n = fields col !! n.
Proof.
  induction l as [|[i c] l IH]; intros col n Hn; simpl; [done|].
  rewrite fmap_cons, not_elem_of_cons in Hn. destruct Hn as [Hne Hn].
  rewrite IH by done. unfold renumber. rewrite store_fields.
  by rewrite lookup_insert_ne.
Qed.

Lemma foldl_renumber_elem col0 l : forall col i c,
  NoDup ((cards_nid col0 ∘ snd) <$> l) -> (i, c) ∈ l ->
  fields (foldl (renumber col0) col l) !! cards_nid col0 c =
  Some (format_deck_id (prefix_of (default "" (label_of col0 c))) i).
Proof.
  induction l as [|[i' c'] l IH]; intros col i c Hnd Hin; simpl.
  - by apply elem_of_nil in Hin.
  - rewrite fmap_cons in Hnd. apply NoDup_cons in Hnd as [Hc Hnd].
    apply elem_of_cons in Hin as [[= -> ->]|Hin]; [|by apply IH].
    rewrite foldl_renumber_other by done.
    unfold renumber. rewrite store_fields. apply lookup_insert_eq.
Qed.

(** When no two cards of the deck share a note and every card has a sort
    key, the card at position [j] of the sweep ends with the index [j + 1]
    under its former prefix: the indices in use are exactly [1..N]. *)
Lemma sweep_label_at col deck_id keys j c :
  mapM (sort_key col) (decks_cids col deck_id) = Some keys ->
  NoDup (cards_nid col <$> decks_cids col deck_id) ->
  sweep_order col deck_id keys !! j = Some c ->
  label_of (fst (reorder_deck_ids deck_id col)) c ≫= parse =
  Some (prefix_of (default "" (label_of col c)), Z.of_nat j + 1).
Proof.
  intros Hkeys Hnd Hj.
  rewrite (reorder_deck_ids_sorted col deck_id keys Hkeys). simpl.
  set (order := sweep_order col deck_id keys) in *.
  assert (order ≡ₚ decks_cids col deck_id) as Hperm
    by (by apply sweep_order_facts).
  unfold label_of at 1.
  destruct (foldl_renumber_static col (enumerate 1 order) col) as (-> & _).
  rewrite (foldl_renumber_elem col _ col (1 + Z.of_nat j) c).
  - simpl. rewrite parse_format by lia. do 2 f_equal. lia.
  - rewrite list_fmap_compose, enumerate_snd. by rewrite Hperm.
  - apply list_elem_of_lookup_2 with j. by apply enumerate_lookup.
Qed.

End DistinctNotes.

(** ** The next index on decks whose digit suffixes all convert *)

Section NextIndex.

Lemma max_index_loop_run col l : forall m,
  Forall (fun cid => forall v, label_of col cid = Some v ->
            Py.isdigit (suffix_of v) = true ->
            is_Some (Py.int (suffix_of v))) l ->
  max_index_loop m l col =
  (col, Ok (foldl Z.max m (omap (card_index col) l))).
Proof.
  induction l as [|cid l IH]; intros m Hall; [done|].
  apply Forall_cons in Hall as [Hcid Hall].
  change (omap (card_index col) (cid :: l)) with
    (match card_index col cid with
     | Some y => y :: omap (card_index col) l
     | None => omap (card_index col) l
     end).
  simpl max_index_loop. unfold deck_id_or_none, has_deck_id. run.
  unfold card_index at 1. unfold label_of in *.
  destruct (fields col !! cards_nid col cid) as [v|] eqn:Hv; simpl;
    [|by apply IH].
  unfold parse. rewrite suffix_of_split.
  destruct (Py.truthy v && Py.contains "@" v); simpl; [|by apply IH].
  destruct (Py.isdigit (suffix_of v)) eqn:Hd; simpl; [|by apply IH].
  destruct (Hcid v eq_refl Hd) as [k Hk]. rewrite Hk. simpl.
  by apply IH.
Qed.

Lemma foldl_max_foldr l : forall m,
  0 <= m -> foldl Z.max m l = Z.max m (foldr Z.max 0 l).
Proof.
  induction l as [|x l IH]; intros m Hm; simpl; [lia|].
  rewrite IH by lia. lia.
Qed.

(** When every suffix that passes [isdigit] is accepted by [int] (true of
    all labels the add-on writes), [add_deck_index_field] returns normally:
    it leaves the collection as the sweep leaves it and gives the note the
    deck name with the largest index found after the sweep plus one,
    [name@00001] when there is none. *)
Lemma add_deck_index_field_ok col deck_id note :
  has_deck_id note = true ->
  let col1 := fst (reorder_deck_ids deck_id col) in
  Forall (fun cid => forall v, label_of col1 cid = Some v ->
            Py.isdigit (suffix_of v) = true ->
            is_Some (Py.int (suffix_of v))) (decks_cids col deck_id) ->
  add_deck_index_field note deck_id col =
  (col1, Ok (mkNote (note_id note)
               (Some (format_deck_id (decks_name col deck_id)
                        (max_index col1 deck_id + 1))))).
Proof.
  intros Hnote col1 Hall. unfold add_deck_index_field, get_max_deck_index.
  unfold mbind at 1, M_bind at 1, deck_name_of.
  unfold mbind at 1, M_bind at 1. unfold mbind at 1, M_bind at 1.
  assert (exists u, reorder_deck_ids deck_id col = (col1, Ok u)) as [[] E].
  { unfold col1. destruct (mapM (sort_key col) (decks_cids col deck_id))
      as [keys|] eqn:Hk.
    - rewrite (reorder_deck_ids_sorted _ _ _ Hk). by eexists.
    - rewrite (reorder_deck_ids_unsorted _ _ Hk). by eexists. }
  rewrite E. run.
  assert (decks_cids col1 deck_id = decks_cids col deck_id) as Hc.
  { unfold col1. destruct (mapM (sort_key col) (decks_cids col deck_id))
      as [keys|] eqn:Hk.
    - rewrite (reorder_deck_ids_sorted _ _ _ Hk). simpl.
      by destruct (foldl_renumber_static col
                     (enumerate 1 (sweep_order col deck_id keys)) col)
        as (_ & -> & _).
    - by rewrite (reorder_deck_ids_unsorted _ _ Hk). }
  assert (decks_name col1 deck_id = decks_name col deck_id) as Hn.
  { unfold col1. destruct (mapM (sort_key col) (decks_cids col deck_id))
      as [keys|] eqn:Hk.
    - rewrite (reorder_deck_ids_sorted _ _ _ Hk). simpl.
      by destruct (foldl_renumber_static col
                     (enumerate 1 (sweep_order col deck_id keys)) col)
        as (_ & _ & ->).
    - by rewrite (reorder_deck_ids_unsorted _ _ Hk). }
  rewrite Hc, (max_index_loop_run col1 _ 0 Hall).
  unfold setitem. unfold has_deck_id in Hnote.
  destruct (note_deck_id note); [|done]. simpl.
  unfold max_index. rewrite Hc.
  rewrite foldl_max_foldr by lia.
  do 5 f_equal.
  assert (0 <= foldr Z.max 0 (omap (card_index col1) (decks_cids col deck_id))).
  { generalize (omap (card_index col1) (decks_cids col deck_id)).
    intros l. induction l; simpl; lia. }
  lia.
Qed.

End NextIndex.

(** ** More on the sweep *)

Section SweepExtras.

Lemma foldl_renumber_dom col0 l : forall col n,
  Forall (fun p => is_Some (fields col !! cards_nid col0 p.2)) l ->
  is_Some (fields (foldl (renumber col0) col l) !! n) <->
  is_Some (fields col !! n).
Proof.
  induction l as [|p l IH]; intros col n Hall; simpl; [done|].
  apply Forall_cons in Hall as [Hp Hall].
  assert (forall m, is_Some (fields (renumber col0 col p) !! m) <->
                    is_Some (fields col !! m)) as Hstep.
  { intros m. unfold renumber. rewrite store_fields, lookup_insert.
    destruct (decide (cards_nid col0 p.2 = m)) as [<-|]; [|done].
    split; [done|]. by intros _. }
  rewrite IH; [apply Hstep|].
  eapply Forall_impl; [exact Hall|]. intros q Hq. by apply Hstep.
Qed.

Lemma sort_key_label col cid k :
  sort_key col cid = Some k -> is_Some (fields col !! cards_nid col cid).
Proof. intros (v & Hv & _)%sort_key_Some. by exists v. Qed.

(** X1.  On a deck where no two cards share a note and every card has a
    sort key, the indices that the cards carry after the sweep, read in the
    order of the sweep, are [1, 2, ..., N]: no gap and no duplicate. *)
Theorem sweep_contiguous (col : Col) (deck_id : N) (keys : list Z) :
  mapM (sort_key col) (decks_cids col deck_id) = Some keys ->
  NoDup (cards_nid col <$> decks_cids col deck_id) ->
  card_index (fst (reorder_deck_ids deck_id col)) <$>
    sweep_order col deck_id keys =
  (fun j => Some (Z.of_nat j)) <$> seq 1 (length (decks_cids col deck_id)).
Proof.
  intros Hkeys Hnd.
  assert (length (sweep_order col deck_id keys) =
          length (decks_cids col deck_id)) as Hlen.
  { apply Permutation_length. by apply sweep_order_facts. }
  apply list_eq. intros j. rewrite !list_lookup_fmap.
  destruct (sweep_order col deck_id keys !! j) as [c|] eqn:Hj; simpl.
  - rewrite lookup_seq_lt by (apply lookup_lt_Some in Hj; lia). simpl.
    unfold card_index.
    rewrite (sweep_label_at col deck_id keys j c Hkeys Hnd Hj). simpl.
    do 2 f_equal. lia.
  - rewrite lookup_seq_ge; [done|]. apply lookup_ge_None in Hj. lia.
Qed.

Lemma sweep_contiguous_witness :
  let col := example_col "Math" [1; 2; 3]%N id
               [(1%N, "Math@00007"); (2%N, "Math@00001"); (3%N, "Math@00003")] in
  card_index (fst (reorder_deck_ids 1 col)) <$> [2; 3; 1]%N =
  [Some 1; Some 2; Some 3].
Proof.
  intros col.
  refine (sweep_contiguous col 1 [7; 1; 3] eq_refl _).
  apply (bool_decide_unpack _). reflexivity.
Defined.

(** X2.  The sweep never raises, changes no label outside the notes of the
    deck's cards, and neither adds the field to a note nor removes it. *)
Theorem sweep_frame (col : Col) (deck_id : N) :
  snd (reorder_deck_ids deck_id col) = Ok tt /\
  (forall n, n ∉ cards_nid col <$> decks_cids col deck_id ->
     fields (fst (reorder_deck_ids deck_id col)) !! n = fields col !! n) /\
  (forall n, is_Some (fields (fst (reorder_deck_ids deck_id col)) !! n) <->
             is_Some (fields col !! n)).
Proof.
  destruct (mapM (sort_key col) (decks_cids col deck_id)) as [keys|] eqn:Hk.
  - rewrite (reorder_deck_ids_sorted col deck_id keys Hk). simpl.
    assert (sweep_order col deck_id keys ≡ₚ decks_cids col deck_id) as Hperm
      by (by apply sweep_order_facts).
    split; [done|]. split.
    + intros n Hn. apply foldl_renumber_other.
      rewrite list_fmap_compose, enumerate_snd. by rewrite Hperm.
    + intros n. apply foldl_renumber_dom, Forall_forall.
      intros [i c] Hin. simpl.
      assert (c ∈ decks_cids col deck_id) as Hc.
      { rewrite <- Hperm, <- (enumerate_snd 1).
        apply list_elem_of_fmap. by exists (i, c). }
      apply mapM_Some in Hk.
      apply list_elem_of_lookup in Hc as [j Hj].
      destruct (Forall2_lookup_l _ _ _ _ _ Hk Hj) as (k & _ & Hkey).
      by apply sort_key_label in Hkey.
  - by rewrite (reorder_deck_ids_unsorted col deck_id Hk).
Qed.

End SweepExtras.

(** ** Sweeping twice *)

Section SweepTwice.

Lemma enumerate_elem l : forall i k c,
  (k, c) ∈ enumerate i l ->
  exists j : nat, l !! j = Some c /\ k = i + Z.of_nat j.
Proof.
  induction l as [|x l IH]; intros i k c Hin; simpl in Hin.
  - by apply elem_of_nil in Hin.
  - apply elem_of_cons in Hin as [[= -> ->]|Hin].
    + exists 0%nat. split; [done|]. lia.
    + destruct (IH _ _ _ Hin) as (j & Hj & ->).
      exists (S j). split; [done|]. lia.
Qed.

Lemma reorder_static col deck_id :
  cards_nid (fst (reorder_deck_ids deck_id col)) = cards_nid col /\
  decks_cids (fst (reorder_deck_ids deck_id col)) = decks_cids col /\
  decks_name (fst (reorder_deck_ids deck_id col)) = decks_name col.
Proof.
  destruct (mapM (sort_key col) (decks_cids col deck_id)) as [keys|] eqn:Hk.
  - rewrite (reorder_deck_ids_sorted col deck_id keys Hk). simpl.
    apply foldl_renumber_static.
  - by rewrite (reorder_deck_ids_unsorted col deck_id Hk).
Qed.

(** The label that the sweep leaves on the card at position [j]. *)
Lemma sweep_field_at col deck_id keys j c :
  mapM (sort_key col) (decks_cids col deck_id) = Some keys ->
  NoDup (cards_nid col <$> decks_cids col deck_id) ->
  sweep_order col deck_id keys !! j = Some c ->
  label_of (fst (reorder_deck_ids deck_id col)) c =
  Some (format_deck_id (prefix_of (default "" (label_of col c)))
          (1 + Z.of_nat j)).
Proof.
  intros Hkeys Hnd Hj.
  rewrite (reorder_deck_ids_sorted col deck_id keys Hkeys). simpl.
  set (order := sweep_order col deck_id keys) in *.
  assert (order ≡ₚ decks_cids col deck_id) as Hperm
    by (by apply sweep_order_facts).
  unfold label_of at 1.
  destruct (foldl_renumber_static col (enumerate 1 order) col) as (-> & _).
  apply foldl_renumber_elem.
  - rewrite list_fmap_compose, enumerate_snd. by rewrite Hperm.
  - apply list_elem_of_lookup_2 with j. by apply enumerate_lookup.
Qed.

Lemma sort_key_format col cid p i :
  0 <= i -> label_of col cid = Some (format_deck_id p i) ->
  sort_key col cid = Some i.
Proof.
  intros Hi Hl. unfold sort_key. rewrite Hl. simpl.
  destruct (format_deck_id_parts p i Hi) as (_ & -> & _).
  destruct (zfill_str_parts 5 i Hi) as (_ & Hd & Ht & Hv).
  rewrite int_decimal by done. by rewrite Hv.
Qed.

Lemma foldl_renumber_same col0 l (F : gmap N string) : forall col,
  fields col = F ->
  (forall p, p ∈ l -> F !! (renumber_write col0 p).1 =
                      Some (renumber_write col0 p).2) ->
  fields (foldl (renumber col0) col l) = F.
Proof.
  induction l as [|p l IH]; intros col HF Hall; simpl; [done|].
  apply IH.
  - unfold renumber. rewrite store_fields, HF.
    apply insert_id. apply (Hall p). left.
  - intros q Hq. apply Hall. by right.
Qed.

(** After one sweep the cards are already in sweep order. *)
Lemma second_sweep_order col deck_id keys :
  mapM (sort_key col) (decks_cids col deck_id) = Some keys ->
  NoDup (cards_nid col <$> decks_cids col deck_id) ->
  let col1 := fst (reorder_deck_ids deck_id col) in
  exists keys1,
    mapM (sort_key col1) (decks_cids col1 deck_id) = Some keys1 /\
    sweep_order col1 deck_id keys1 = sweep_order col deck_id keys.
Proof.
  intros Hkeys Hnd col1.
  set (order := sweep_order col deck_id keys).
  assert (order ≡ₚ decks_cids col deck_id) as Hperm
    by (by apply sweep_order_facts).
  assert (decks_cids col1 deck_id = decks_cids col deck_id) as Hcids.
  { unfold col1. by destruct (reorder_static col deck_id) as (_ & -> & _). }
  assert (forall j c, order !! j = Some c ->
            sort_key col1 c = Some (1 + Z.of_nat j)) as Hkey1.
  { intros j c Hj. eapply sort_key_format; [lia|].
    exact (sweep_field_at col deck_id keys j c Hkeys Hnd Hj). }
  assert (is_Some (mapM (sort_key col1) (decks_cids col1 deck_id)))
    as [keys1 Hkeys1].
  { apply mapM_is_Some, Forall_forall. intros c Hc. simpl.
    rewrite Hcids, <- Hperm in Hc.
    apply list_elem_of_lookup in Hc as [j Hj].
    rewrite (Hkey1 j c Hj). by eexists. }
  exists keys1. split; [done|].
  unfold sweep_order at 1, Py.sorted.
  rewrite (zip_sort_keys col1 _ _ Hkeys1), Hcids.
  set (dec1 := fun c : N => (default 0 (sort_key col1 c), c)).
  assert (Py.sort_decorated Z.leb (dec1 <$> decks_cids col deck_id) =
          dec1 <$> order) as ->.
  { apply (StronglySorted_unique_strong (key_le Z.leb)).
    - intros x1 x2 Hx1 Hx2 H12 H21.
      rewrite sort_decorated_perm, <- Hperm in Hx1.
      apply list_elem_of_fmap in Hx1 as (c1 & -> & [j1 Hc1]%list_elem_of_lookup).
      apply list_elem_of_fmap in Hx2 as (c2 & -> & [j2 Hc2]%list_elem_of_lookup).
      unfold key_le, dec1 in H12, H21. simpl in H12, H21.
      rewrite (Hkey1 _ _ Hc1), (Hkey1 _ _ Hc2) in H12, H21. simpl in H12, H21.
      apply Z.leb_le in H12, H21.
      assert (j1 = j2) as -> by lia. congruence.
    - apply sort_decorated_sorted; [apply Z_leb_total | apply Z_leb_trans].
    - apply StronglySorted_lookup. intros i j x y Hij Hi Hj.
      apply list_lookup_fmap_Some in Hi as (ci & -> & Hi).
      apply list_lookup_fmap_Some in Hj as (cj & -> & Hj).
      unfold key_le, dec1. simpl.
      rewrite (Hkey1 _ _ Hi), (Hkey1 _ _ Hj). simpl. apply Z.leb_le. lia.
    - by rewrite sort_decorated_perm, Hperm. }
  rewrite <- list_fmap_compose. apply list_fmap_id.
Qed.

(** X3.  On a deck where no two cards share a note and every card has a
    sort key, a second sweep right after a first one changes no label, yet
    it persists every card's note once more: the update log grows by the
    number of cards at each sweep. *)
Theorem sweep_twice_same_labels (col : Col) (deck_id : N) (keys : list Z) :
  mapM (sort_key col) (decks_cids col deck_id) = Some keys ->
  NoDup (cards_nid col <$> decks_cids col deck_id) ->
  let col1 := fst (reorder_deck_ids deck_id col) in
  let col2 := fst (reorder_deck_ids deck_id col1) in
  fields col2 = fields col1 /\
  length (updates col1) =
    (length (updates col) + length (decks_cids col deck_id))%nat /\
  length (updates col2) =
    (length (updates col1) + length (decks_cids col deck_id))%nat.
Proof.
  intros Hkeys Hnd col1 col2.
  destruct (second_sweep_order col deck_id keys Hkeys Hnd)
    as (keys1 & Hkeys1 & Horder).
  fold col1 in Hkeys1, Horder.
  set (order := sweep_order col deck_id keys) in *.
  assert (length order = length (decks_cids col deck_id)) as Hlen.
  { apply Permutation_length. by apply sweep_order_facts. }
  assert (cards_nid col1 = cards_nid col) as Hnid.
  { unfold col1. by destruct (reorder_static col deck_id) as (-> & _). }
  unfold col2.
  rewrite (reorder_deck_ids_sorted col1 deck_id keys1 Hkeys1), Horder. simpl.
  split; [|split].
  - apply foldl_renumber_same; [done|].
    intros [i c] Hin. apply enumerate_elem in Hin as (j & Hj & ->).
    unfold renumber_write. simpl.
    pose proof (sweep_field_at col deck_id keys j c Hkeys Hnd Hj) as Hl.
    fold col1 in Hl. rewrite Hl. simpl.
    destruct (format_deck_id_parts
                (prefix_of (default "" (label_of col c))) (1 + Z.of_nat j)
                ltac:(lia)) as (-> & _).
    exact Hl.
  - unfold col1. rewrite (reorder_deck_ids_sorted col deck_id keys Hkeys).
    simpl. rewrite renumber_updates, length_app, length_rev, length_fmap,
      length_enumerate. fold order. lia.
  - rewrite renumber_updates, length_app, length_rev, length_fmap,
      length_enumerate. lia.
Qed.

Lemma sweep_twice_same_labels_witness :
  let col := example_col "Math" [1; 2]%N id
               [(1%N, "Math@00003"); (2%N, "Math@00001")] in
  fields (fst (reorder_deck_ids 1 (fst (reorder_deck_ids 1 col)))) =
  fields (fst (reorder_deck_ids 1 col)).
Proof.
  intros col.
  refine (proj1 (sweep_twice_same_labels col 1 [3; 1] eq_refl _)).
  apply (bool_decide_unpack _). reflexivity.
Defined.

End SweepTwice.

(** ** More on the next index *)

Section NextIndexExtras.


Lemma foldr_max_nonneg l : 0 <= foldr Z.max 0 l.
Proof. induction l; simpl; lia. Qed.

Lemma foldr_max_ub l x : x ∈ l -> x <= foldr Z.max 0 l.
Proof.
  induction l as [|y l IH]; simpl.
  - by intros ?%elem_of_nil.
  - intros [->|Hin]%elem_of_cons; [lia|]. specialize (IH Hin). lia.
Qed.

Lemma foldr_max_le l b :
  0 <= b -> (forall x, x ∈ l -> x <= b) -> foldr Z.max 0 l <= b.
Proof.
  intros Hb. induction l as [|y l IH]; intros H; simpl; [done|].
  assert (y <= b) by (apply H; left).
  assert (foldr Z.max 0 l <= b) by (apply IH; intros x Hx; apply H; by right).
  lia.
Qed.







(** X6.  On a deck of [N] cards where no two cards share a note and every
    card has a sort key, a new note receives the index [N + 1]. *)
Theorem next_index_after_sweep (col : Col) (deck_id : N) (note : Note)
    (keys : list Z) :
  has_deck_id note = true ->
  mapM (sort_key col) (decks_cids col deck_id) = Some keys ->
  NoDup (cards_nid col <$> decks_cids col deck_id) ->
  add_deck_index_field note deck_id col =
  (fst (reorder_deck_ids deck_id col),
   Ok (mkNote (note_id note)
         (Some (format_deck_id (decks_name col deck_id)
                  (Z.of_nat (length (decks_cids col deck_id)) + 1))))).
Proof.
  intros Hnote Hkeys Hnd.
  set (col1 := fst (reorder_deck_ids deck_id col)).
  set (order := sweep_order col deck_id keys).
  assert (order ≡ₚ decks_cids col deck_id) as Hperm
    by (by apply sweep_order_facts).
  assert (forall c, c ∈ decks_cids col deck_id ->
            exists j : nat, order !! j = Some c /\
              label_of col1 c =
                Some (format_deck_id
                        (prefix_of (default "" (label_of col c)))
                        (1 + Z.of_nat j))) as Hlab.
  { intros c Hc. rewrite <- Hperm in Hc.
    apply list_elem_of_lookup in Hc as [j Hj]. exists j. split; [done|].
    exact (sweep_field_at col deck_id keys j c Hkeys Hnd Hj). }
  assert (forall c, c ∈ decks_cids col deck_id ->
            exists j : nat, order !! j = Some c /\
              card_index col1 c = Some (1 + Z.of_nat j)) as Hidx.
  { intros c Hc. destruct (Hlab c Hc) as (j & Hj & Hl). exists j.
    split; [done|]. unfold card_index. rewrite Hl. simpl.
    by rewrite parse_format by lia. }
  destruct (reorder_static col deck_id) as (_ & Hcids & _).
  fold col1 in Hcids.
  rewrite (add_deck_index_field_ok col deck_id note Hnote).
  - fold col1.
    assert (max_index col1 deck_id =
            Z.of_nat (length (decks_cids col deck_id))) as ->; [|done].
    unfold max_index. rewrite Hcids.
    apply Z.le_antisymm.
    + apply foldr_max_le; [lia|]. intros k Hk.
      apply list_elem_of_omap in Hk as (c & Hc & Hk).
      destruct (Hidx c Hc) as (j & Hj & Hk').
      rewrite Hk in Hk'. injection Hk' as ->.
      apply lookup_lt_Some in Hj. rewrite (Permutation_length Hperm) in Hj.
      lia.
    + destruct (decide (length (decks_cids col deck_id) = 0%nat)) as [E|E].
      { rewrite E. apply foldr_max_nonneg. }
      assert (is_Some (order !! pred (length (decks_cids col deck_id))))
        as [c Hj].
      { apply lookup_lt_is_Some. rewrite (Permutation_length Hperm). lia. }
      assert (c ∈ decks_cids col deck_id) as Hc.
      { rewrite <- Hperm. by apply list_elem_of_lookup_2 in Hj. }
      apply foldr_max_ub, list_elem_of_omap. exists c. split; [done|].
      unfold card_index. unfold col1.
      rewrite (sweep_field_at col deck_id keys _ c Hkeys Hnd Hj). simpl.
      rewrite parse_format by lia. simpl. f_equal. lia.
  - apply Forall_forall. intros c Hc v Hv _.
    destruct (Hlab c Hc) as (j & _ & Hl). fold col1 in Hv.
    rewrite Hl in Hv. injection Hv as <-.
    destruct (format_deck_id_parts
                (prefix_of (default "" (label_of col c))) (1 + Z.of_nat j)
                ltac:(lia)) as (_ & -> & _).
    destruct (zfill_str_parts 5 (1 + Z.of_nat j) ltac:(lia))
      as (_ & Hd & Ht & _).
    rewrite int_decimal by done. by eexists.
Qed.

Lemma next_index_after_sweep_witness :
  let col := example_col "Math" [1; 2]%N id
               [(1%N, "Math@00007"); (2%N, "Math@00003")] in
  snd (add_deck_index_field (mkNote 9 (Some "")) 1 col) =
  Ok (mkNote 9 (Some "Math@00003")).
Proof.
  intros col.
  rewrite (next_index_after_sweep col 1 (mkNote 9 (Some "")) [7; 3]
             eq_refl eq_refl).
  - reflexivity.
  - apply (bool_decide_unpack _). reflexivity.
Defined.

End NextIndexExtras.

(** ** The first index of a deck, and the note added at profile load *)

Section FirstIndex.

#[local] Arguments String.append !_ _ /.

Lemma reorder_deck_ids_no_labels col deck_id :
  Forall (fun cid => label_of col cid = None) (decks_cids col deck_id) ->
  reorder_deck_ids deck_id col = (col, Ok tt).
Proof.
  intros Hnone.
  destruct (decks_cids col deck_id) as [|c cs] eqn:Hcs.
  - rewrite (reorder_deck_ids_sorted col deck_id []) by (by rewrite Hcs).
    unfold sweep_order. by rewrite Hcs.
  - apply reorder_deck_ids_unsorted. rewrite Hcs.
    apply Forall_cons in Hnone as [Hc _].
    change (mapM (sort_key col) (c :: cs)) with
      (x ← sort_key col c; k ← mapM (sort_key col) cs; mret (x :: k)).
    unfold sort_key. by rewrite Hc.
Qed.

Lemma max_index_no_labels col deck_id :
  Forall (fun cid => label_of col cid = None) (decks_cids col deck_id) ->
  max_index col deck_id = 0.
Proof.
  unfold max_index. induction 1 as [|c cs Hc _ IH]; [done|].
  change (omap (card_index col) (c :: cs)) with
    (match card_index col c with
     | Some y => y :: omap (card_index col) cs
     | None => omap (card_index col) cs
     end).
  unfold card_index at 1. by rewrite Hc.
Qed.

(** X7.  When no card of the deck has the field (in particular when the
    deck has no card), the hook gives a note that has the field the label
    [name@00001], whatever the note held before, and leaves the collection
    untouched. *)
Theorem first_index_without_labels (col : Col) (deck_id : N) (note : Note) :
  has_deck_id note = true ->
  Forall (fun cid => label_of col cid = None) (decks_cids col deck_id) ->
  on_note_will_be_added note deck_id col =
  (col, Ok (mkNote (note_id note)
              (Some (decks_name col deck_id ++ "@00001")))).
Proof.
  intros Hnote Hnone. unfold on_note_will_be_added. rewrite Hnote.
  pose proof (reorder_deck_ids_no_labels col deck_id Hnone) as Hsweep.
  rewrite (add_deck_index_field_ok col deck_id note Hnote); rewrite Hsweep.
  - simpl fst. by rewrite (max_index_no_labels col deck_id Hnone).
  - simpl fst. eapply Forall_impl; [exact Hnone|].
    intros c Hc v Hv. congruence.
Qed.

Lemma first_index_without_labels_witness :
  let col := example_col "Math" [] id [] in
  on_note_will_be_added (mkNote 9 (Some "old")) 1 col =
  (col, Ok (mkNote 9 (Some "Math@00001"))).
Proof.
  intros col.
  apply (first_index_without_labels col 1 (mkNote 9 (Some "old")) eq_refl).
  apply List.Forall_nil.
Defined.




End FirstIndex.

(** ** More on the verification at profile load *)

Section VerifyExtras.

Lemma filter_verify_order_sorted col (P : N -> Prop)
    `{!forall n, Decision (P n)} :
  StronglySorted
    (fun a b => String.leb (label_or_empty col a) (label_or_empty col b) = true)
    (filter P (verify_order col)).
Proof.
  rewrite filter_verify_order.
  apply (StronglySorted_fmap_elem (key_le String.leb)).
  - intros x y Hx Hy Hle.
    rewrite sort_decorated_perm in Hx, Hy.
    apply list_elem_of_fmap in Hx as (n & -> & _).
    apply list_elem_of_fmap in Hy as (m & -> & _). exact Hle.
  - apply sort_decorated_sorted;
      [apply String.leb_total | apply string_leb_trans].
Qed.

Lemma filter_verify_order_perm col (P : N -> Prop)
    `{!forall n, Decision (P n)} :
  filter P (verify_order col) ≡ₚ filter P (all_note_ids col).
Proof. by rewrite verify_order_perm. Qed.

(** X9.  When [find_notes] lists every note once, one run of
    [verify_and_add_deck_ids] numbers the notes that carry the field deck
    name by deck name: taken in ascending text order of their former labels,
    the notes counted under the name [g] carry [g@00001], [g@00002], ... up
    to their number. *)
Theorem verify_numbers_each_group (col : Col) (g : string) :
  NoDup (all_note_ids col) ->
  let col1 := fst (verify_and_add_deck_ids col) in
  let group := filter (in_group col g) (verify_order col) in
  group ≡ₚ filter (in_group col g) (all_note_ids col) /\
  StronglySorted
    (fun a b => String.leb (label_or_empty col a) (label_or_empty col b) = true)
    group /\
  (fun n => fields col1 !! n) <$> group =
  (fun j => Some (format_deck_id g (Z.of_nat j))) <$> seq 1 (length group).
Proof.
  intros Hnd col1 group. subst col1. rewrite (verify_run col). simpl.
  split; [apply filter_verify_order_perm|].
  split; [apply filter_verify_order_sorted|].
  apply list_eq. intros j. rewrite !list_lookup_fmap.
  destruct (group !! j) as [n|] eqn:Hj; simpl.
  - rewrite (first_run_label col Hnd g j n Hj).
    apply lookup_lt_Some in Hj as Hlt.
    rewrite lookup_seq_lt by done.
    by replace (Z.of_nat j + 1) with (Z.of_nat (1 + j)) by lia.
  - apply lookup_ge_None in Hj. by rewrite lookup_seq_ge.
Qed.

Lemma verify_numbers_each_group_witness :
  (fun n => fields (fst (verify_and_add_deck_ids art_col)) !! n) <$> [2; 1]%N =
  [Some "Art@00001"; Some "Art@00002"].
Proof.
  destruct (verify_numbers_each_group art_col "Art") as (_ & _ & H).
  - apply (bool_decide_unpack _). reflexivity.
  - exact H.
Defined.

(** X10.  [verify_and_add_deck_ids] never raises, and it neither gives the
    field to a note that lacks it nor takes it from one that has it; a note
    that [find_notes] does not list keeps its value. *)
Theorem verify_frame (col : Col) :
  let col1 := fst (verify_and_add_deck_ids col) in
  snd (verify_and_add_deck_ids col) = Ok tt /\
  (forall n, fields col !! n = None -> fields col1 !! n = None) /\
  (forall n, is_Some (fields col !! n) -> is_Some (fields col1 !! n)) /\
  (forall n, n ∉ all_note_ids col -> fields col1 !! n = fields col !! n).
Proof.
  intros col1. subst col1. rewrite (verify_run col). simpl.
  destruct (first_run_static col) as (_ & _ & _ & Hlab).
  split; [done|]. split; [|split].
  - intros n Hn. specialize (Hlab n). unfold labelled in Hlab.
    rewrite Hn in Hlab.
    by destruct (fields (foldl fix_label col _) !! n).
  - intros n [v Hn]. specialize (Hlab n). unfold labelled in Hlab.
    rewrite Hn in Hlab.
    by destruct (fields (foldl fix_label col _) !! n).
  - intros n Hn. apply foldl_fix_label_other.
    rewrite assign_fst. intros Hin.
    apply list_elem_of_filter in Hin as [_ Hin].
    by rewrite verify_order_perm in Hin.
Qed.

(** X11.  When [find_notes] lists every note once, no two notes carry the
    same label after a run of [verify_and_add_deck_ids]. *)
Theorem verify_labels_distinct (col : Col) (n m : N) :
  NoDup (all_note_ids col) ->
  n ∈ all_note_ids col -> m ∈ all_note_ids col ->
  is_Some (fields col !! n) -> is_Some (fields col !! m) ->
  n <> m ->
  let col1 := fst (verify_and_add_deck_ids col) in
  fields col1 !! n <> fields col1 !! m.
Proof.
  intros Hnd Hn Hm [vn Fn] [vm Fm] Hne col1. subst col1.
  rewrite (verify_run col). simpl.
  assert (forall k v, k ∈ all_note_ids col -> fields col !! k = Some v ->
            exists j : nat,
              filter (in_group col (note_group col k)) (verify_order col) !! j
              = Some k) as Hpos.
  { intros k v Hk Fk. apply list_elem_of_lookup, list_elem_of_filter.
    split; [|by rewrite verify_order_perm].
    split; [|done]. unfold labelled. by rewrite Fk. }
  destruct (Hpos n vn Hn Fn) as [jn Hjn].
  destruct (Hpos m vm Hm Fm) as [jm Hjm].
  rewrite (first_run_label col Hnd _ jn n Hjn).
  rewrite (first_run_label col Hnd _ jm m Hjm).
  intros [= E].
  assert (note_group col n = note_group col m) as Hg.
  { destruct (format_deck_id_parts (note_group col n) (Z.of_nat jn + 1)
                ltac:(lia)) as (<- & _).
    destruct (format_deck_id_parts (note_group col m) (Z.of_nat jm + 1)
                ltac:(lia)) as (<- & _).
    by rewrite E. }
  rewrite Hg in E, Hjn. apply format_deck_id_inj in E; [|lia..].
  assert (jn = jm) as -> by lia. congruence.
Qed.

Lemma verify_labels_distinct_witness :
  fields (fst (verify_and_add_deck_ids art_col)) !! 1%N <>
  fields (fst (verify_and_add_deck_ids art_col)) !! 2%N.
Proof.
  apply (verify_labels_distinct art_col 1 2).
  - apply (bool_decide_unpack _). reflexivity.
  - apply (bool_decide_unpack _). reflexivity.
  - apply (bool_decide_unpack _). reflexivity.
  - by eexists.
  - by eexists.
  - discriminate.
Defined.

End VerifyExtras.

(** ** Renumbering the visible cards of the browser *)

Section BrowserReorder.

(** The loop of the browser's [reorder_deck_ids], as long as every card it
    meets has a label whose prefix is the one the card had at the start. *)
Lemma browser_reorder_loop_run col0 l : forall col i,
  cards_nid col = cards_nid col0 ->
  Forall (fun cid => exists v,
            fields col !! cards_nid col0 cid = Some v /\
            prefix_of v = prefix_of (default "" (label_of col0 cid))) l ->
  0 <= i + 1 ->
  Browser.reorder_loop i l col =
  (foldl (renumber col0) col (enumerate (i + 1) l), Ok tt).
Proof.
  induction l as [|cid l IH]; intros col i Hnid Hall Hi; simpl; [done|].
  apply Forall_cons in Hall as [(v & Hv & Hp) Hall].
  unfold getitem, setitem. run.
  rewrite Hnid, Hv; simpl.
  fold (prefix_of v). rewrite Hp.
  change (store (cards_nid col0 cid) _ col)
    with (renumber col0 col (i + 1, cid)).
  apply IH; [done| |lia].
  eapply Forall_impl; [exact Hall|]. intros cid' (v' & Hv' & Hp').
  unfold renumber; simpl. rewrite lookup_insert.
  destruct (decide (cards_nid col0 cid = cards_nid col0 cid')) as [E|]; [|eauto].
  eexists. split; [done|].
  destruct (format_deck_id_parts
              (prefix_of (default "" (label_of col0 cid))) (i + 1) Hi)
    as (-> & _).
  unfold label_of. by rewrite E.
Qed.

(** The same loop when it meets a card whose note lacks the field. *)
Lemma browser_reorder_loop_stops col0 l1 c l2 : forall col i,
  cards_nid col = cards_nid col0 ->
  Forall (fun cid => exists v,
            fields col !! cards_nid col0 cid = Some v /\
            prefix_of v = prefix_of (default "" (label_of col0 cid))) l1 ->
  fields col !! cards_nid col0 c = None ->
  0 <= i + 1 ->
  Browser.reorder_loop i (l1 ++ c :: l2) col =
  (foldl (renumber col0) col (enumerate (i + 1) l1), Raise KeyError).
Proof.
  induction l1 as [|cid l1 IH]; intros col i Hnid Hall Hc Hi; simpl.
  - unfold getitem. run. by rewrite Hnid, Hc.
  - apply Forall_cons in Hall as [(v & Hv & Hp) Hall].
    unfold getitem, setitem. run.
    rewrite Hnid, Hv; simpl.
    fold (prefix_of v). rewrite Hp.
    change (store (cards_nid col0 cid) _ col)
      with (renumber col0 col (i + 1, cid)).
    apply IH; [done| | |lia].
    + eapply Forall_impl; [exact Hall|]. intros cid' (v' & Hv' & Hp').
      unfold renumber; simpl. rewrite lookup_insert.
      destruct (decide (cards_nid col0 cid = cards_nid col0 cid')) as [E|];
        [|eauto].
      eexists. split; [done|].
      destruct (format_deck_id_parts
                  (prefix_of (default "" (label_of col0 cid))) (i + 1) Hi)
        as (-> & _).
      unfold label_of. by rewrite E.
    + unfold renumber; simpl. rewrite lookup_insert_ne; [done|].
      intros E. rewrite E in Hv. congruence.
Qed.

Lemma labelled_cards_start col l :
  Forall (fun cid => is_Some (label_of col cid)) l ->
  Forall (fun cid => exists v,
            fields col !! cards_nid col cid = Some v /\
            prefix_of v = prefix_of (default "" (label_of col cid))) l.
Proof.
  intros H. eapply Forall_impl; [exact H|]. intros cid [v Hv].
  exists v. split; [done|]. by rewrite Hv.
Qed.

Lemma browser_renumber_label col l1 j c :
  NoDup (cards_nid col <$> l1) ->
  l1 !! j = Some c ->
  label_of (foldl (renumber col) col (enumerate 1 l1)) c =
  Some (format_deck_id (prefix_of (default "" (label_of col c)))
          (Z.of_nat j + 1)).
Proof.
  intros Hnd Hj. unfold label_of at 1.
  destruct (foldl_renumber_static col (enumerate 1 l1) col) as (-> & _).
  rewrite (foldl_renumber_elem col (enumerate 1 l1) col (1 + Z.of_nat j) c).
  - do 2 f_equal. lia.
  - by rewrite list_fmap_compose, enumerate_snd.
  - apply list_elem_of_lookup. exists j. by apply enumerate_lookup.
Qed.

(** X12.  When every visible card has the field and no two of them share
    a note, the browser's [reorder_deck_ids] numbers the cards by their
    position in the list: the card at position [j] (from 0) gets the text
    before the last ['@'] of its former label (the whole label when there is
    no ['@']) followed by ['@'] and [j + 1] on five digits.  Every card's
    note is persisted once, and the other notes are untouched. *)
Theorem browser_reorder_by_position (col : Col) (l : list N) :
  Forall (fun cid => is_Some (label_of col cid)) l ->
  NoDup (cards_nid col <$> l) ->
  let col1 := fst (Browser.reorder_deck_ids l col) in
  snd (Browser.reorder_deck_ids l col) = Ok tt /\
  (forall (j : nat) c, l !! j = Some c ->
     label_of col1 c =
     Some (format_deck_id (prefix_of (default "" (label_of col c)))
             (Z.of_nat j + 1))) /\
  (forall n, n ∉ cards_nid col <$> l -> fields col1 !! n = fields col !! n) /\
  length (updates col1) = (length l + length (updates col))%nat.
Proof.
  intros Hlab Hnd col1. subst col1. unfold Browser.reorder_deck_ids.
  rewrite (browser_reorder_loop_run col l col 0 eq_refl
             (labelled_cards_start col l Hlab)) by lia.
  simpl. split; [done|]. split; [|split].
  - intros j c Hj. by apply browser_renumber_label.
  - intros n Hn. apply foldl_renumber_other.
    by rewrite list_fmap_compose, enumerate_snd.
  - rewrite renumber_updates, length_app, length_rev, length_fmap.
    by rewrite length_enumerate.
Qed.

Lemma browser_reorder_by_position_witness :
  let col := example_col "Math" [] id
               [(1%N, "Math@00007"); (2%N, "oops"); (3%N, "a@b@x")] in
  (fun c => label_of (fst (Browser.reorder_deck_ids [3; 1; 2]%N col)) c)
    <$> [3; 1; 2]%N =
  [Some "a@b@00001"; Some "Math@00002"; Some "oops@00003"].
Proof.
  intros col.
  destruct (browser_reorder_by_position col [3; 1; 2]%N) as (_ & H & _).
  - repeat apply List.Forall_cons; [..|apply List.Forall_nil]; by eexists.
  - apply (bool_decide_unpack _). reflexivity.
  - simpl fmap.
    rewrite (H 0%nat 3%N eq_refl), (H 1%nat 1%N eq_refl),
      (H 2%nat 2%N eq_refl).
    reflexivity.
Defined.

(** X13.  The browser's [reorder_deck_ids] has no guard for a missing
    field: at the first visible card whose note lacks it, [KeyError] is
    raised, and the cards before it (no two of them sharing a note) have
    already been renumbered and persisted. *)
Theorem browser_reorder_missing_field (col : Col) (l1 l2 : list N) (c : N) :
  Forall (fun cid => is_Some (label_of col cid)) l1 ->
  label_of col c = None ->
  NoDup (cards_nid col <$> l1) ->
  let col1 := fst (Browser.reorder_deck_ids (l1 ++ c :: l2) col) in
  snd (Browser.reorder_deck_ids (l1 ++ c :: l2) col) = Raise KeyError /\
  (forall (j : nat) c', l1 !! j = Some c' ->
     label_of col1 c' =
     Some (format_deck_id (prefix_of (default "" (label_of col c')))
             (Z.of_nat j + 1))) /\
  (forall n, n ∉ cards_nid col <$> l1 -> fields col1 !! n = fields col !! n) /\
  length (updates col1) = (length l1 + length (updates col))%nat.
Proof.
  intros Hlab Hc Hnd col1. subst col1. unfold Browser.reorder_deck_ids.
  rewrite (browser_reorder_loop_stops col l1 c l2 col 0 eq_refl
             (labelled_cards_start col l1 Hlab) Hc) by lia.
  simpl. split; [done|]. split; [|split].
  - intros j c' Hj. by apply browser_renumber_label.
  - intros n Hn. apply foldl_renumber_other.
    by rewrite list_fmap_compose, enumerate_snd.
  - rewrite renumber_updates, length_app, length_rev, length_fmap.
    by rewrite length_enumerate.
Qed.

Lemma browser_reorder_missing_field_witness :
  let col := example_col "Math" [] id
               [(1%N, "Math@00007"); (3%N, "Math@00004")] in
  let run := Browser.reorder_deck_ids [3; 2; 1]%N col in
  snd run = Raise KeyError /\
  label_of (fst run) 3 = Some "Math@00001" /\
  label_of (fst run) 1 = Some "Math@00007".
Proof.
  intros col run.
  destruct (browser_reorder_missing_field col [3]%N [1]%N 2%N)
    as (Hr & Hl & Ho & _).
  - repeat apply List.Forall_cons; [..|apply List.Forall_nil]; by eexists.
  - reflexivity.
  - apply (bool_decide_unpack _). reflexivity.
  - split; [exact Hr|]. split.
    + exact (Hl 0%nat 3%N eq_refl).
    + change (label_of (fst run) 1) with
        (fields (fst (Browser.reorder_deck_ids ([3]%N ++ 2%N :: [1]%N) col))
           !! 1%N).
      rewrite (Ho 1%N); [reflexivity|].
      apply (bool_decide_unpack _). reflexivity.
Defined.

End BrowserReorder.

(** ** Moves that succeed, moves that are refused, and moving back *)

Section MoveExtras.

Lemma index_Some x l : forall i,
  Py.index x l = Some i ->
  l !! i = Some x /\ forall j, (j < i)%nat -> l !! j <> Some x.
Proof.
  induction l as [|y l IH]; intros i; simpl; [done|].
  destruct (N.eqb_spec y x) as [->|Hne].
  - intros [= <-]. split; [done|]. intros j Hj. lia.
  - destruct (Py.index x l) as [k|]; simpl; [|done].
    intros [= <-]. destruct (IH k eq_refl) as [Hk Hlt].
    split; [done|]. intros [|j] Hj; simpl; [congruence|].
    apply Hlt. lia.
Qed.

Lemma index_first x l : forall i,
  l !! i = Some x -> (forall j, (j < i)%nat -> l !! j <> Some x) ->
  Py.index x l = Some i.
Proof.
  induction l as [|y l IH]; intros i Hi Hlt; [done|]. simpl.
  destruct i as [|i]; simpl in Hi.
  - injection Hi as ->. by rewrite N.eqb_refl.
  - destruct (N.eqb_spec y x) as [->|Hne].
    + by destruct (Hlt 0%nat ltac:(lia)).
    + rewrite (IH i Hi); [done|].
      intros j Hj. apply (Hlt (S j)). lia.
Qed.

(** [move_card_up] away from the first position is the swap of the labels
    followed, when the swap says so, by the exchange in the list. *)
Lemma move_card_up_run col id u l i :
  Py.index id l = Some (S i) -> l !! i = Some u ->
  move_card_up id l col =
  match update_deck_ids_after_swap (mkCard id (cards_nid col id))
          (mkCard u (cards_nid col u)) col with
  | (col', Ok true) => (col', Ok (true, <[i := id]> (<[S i := u]> l)))
  | (col', Ok false) => (col', Ok (false, l))
  | (col', Raise e) => (col', Raise e)
  end.
Proof.
  intros Hidx Hu. unfold move_card_up. rewrite Hidx.
  destruct (index_Some id l (S i) Hidx) as [Hid _].
  unfold swap_items. rewrite Hid, Hu. run.
  by destruct (update_deck_ids_after_swap _ _ col) as [col' [[]|e]].
Qed.

Lemma move_card_down_run col id u l i :
  Py.index id l = Some i -> l !! S i = Some u ->
  move_card_down id l col =
  match update_deck_ids_after_swap (mkCard id (cards_nid col id))
          (mkCard u (cards_nid col u)) col with
  | (col', Ok true) => (col', Ok (true, <[S i := id]> (<[i := u]> l)))
  | (col', Ok false) => (col', Ok (false, l))
  | (col', Raise e) => (col', Raise e)
  end.
Proof.
  intros Hidx Hu. unfold move_card_down. rewrite Hidx.
  destruct (index_Some id l i Hidx) as [Hid _].
  apply lookup_lt_Some in Hu as Hlen.
  destruct (Z.ltb_spec (Z.of_nat i) (Z.of_nat (length l) - 1)); [|lia].
  unfold swap_items. rewrite Hid, Hu. run.
  by destruct (update_deck_ids_after_swap _ _ col) as [col' [[]|e]].
Qed.

Lemma swap_same_prefix col a b la lb :
  fields col !! card_nid a = Some la ->
  fields col !! card_nid b = Some lb ->
  prefix_of la = prefix_of lb ->
  update_deck_ids_after_swap a b col =
  (store (card_nid b) (prefix_of lb ++ "@" ++ suffix_of la)
     (store (card_nid a) (prefix_of la ++ "@" ++ suffix_of lb) col),
   Ok true).
Proof.
  intros Ha Hb Hp. rewrite (swap_run col a b la lb Ha Hb).
  by rewrite Hp, String.eqb_refl.
Qed.

Lemma index_after_up id u l i :
  Py.index id l = Some (S i) -> l !! i = Some u ->
  Py.index id (<[i := id]> (<[S i := u]> l)) = Some i /\
  <[i := id]> (<[S i := u]> l) !! S i = Some u.
Proof.
  intros Hidx Hu. destruct (index_Some id l (S i) Hidx) as [Hid Hlt].
  apply lookup_lt_Some in Hid as Hlen. split.
  - apply index_first.
    + apply list_lookup_insert_eq. rewrite length_insert. lia.
    + intros j Hj. rewrite !list_lookup_insert_ne by lia. apply Hlt. lia.
  - rewrite list_lookup_insert_ne by lia. by apply list_lookup_insert_eq.
Qed.

Lemma index_after_down id u l i :
  Py.index id l = Some i -> l !! S i = Some u -> u <> id ->
  Py.index id (<[S i := id]> (<[i := u]> l)) = Some (S i) /\
  <[S i := id]> (<[i := u]> l) !! i = Some u.
Proof.
  intros Hidx Hu Hne. destruct (index_Some id l i Hidx) as [Hid Hlt].
  apply lookup_lt_Some in Hu as Hlen. split.
  - apply index_first.
    + apply list_lookup_insert_eq. rewrite length_insert. lia.
    + intros j Hj. rewrite list_lookup_insert_ne by lia.
      destruct (decide (j = i)) as [->|Hji].
      * rewrite list_lookup_insert_eq by lia. congruence.
      * rewrite list_lookup_insert_ne by lia. apply Hlt. lia.
  - rewrite list_lookup_insert_ne by lia. apply list_lookup_insert_eq. lia.
Qed.

(** X14.  When the selected card is not first in the list and its label
    and the label of the card above have the same prefix, [move_card_up]
    returns [True]: the two cards change places in the list, the selected
    card now being found one position higher, and the two labels exchange
    what follows their last ['@']. *)
Theorem move_card_up_swaps (col : Col) (id u : N) (l : list N) (i : nat)
    (la lb : string) :
  Py.index id l = Some (S i) -> l !! i = Some u ->
  label_of col id = Some la -> label_of col u = Some lb ->
  prefix_of la = prefix_of lb ->
  let l' := <[i := id]> (<[S i := u]> l) in
  move_card_up id l col =
  (store (cards_nid col u) (prefix_of lb ++ "@" ++ suffix_of la)
     (store (cards_nid col id) (prefix_of la ++ "@" ++ suffix_of lb) col),
   Ok (true, l')) /\
  Py.index id l' = Some i /\ l' !! S i = Some u.
Proof.
  intros Hidx Hu Ha Hb Hp l'. split; [|by apply index_after_up].
  rewrite (move_card_up_run col id u l i Hidx Hu).
  by rewrite (swap_same_prefix col (mkCard id _) (mkCard u _) la lb Ha Hb Hp).
Qed.

Lemma move_card_up_swaps_witness :
  let col := example_col "History" [] id
               [(1%N, "History@00001"); (2%N, "History@00002");
                (3%N, "History@00003")] in
  let run := move_card_up 3 [1; 2; 3]%N col in
  snd run = Ok (true, [1; 3; 2]%N) /\
  label_of (fst run) 3 = Some "History@00002" /\
  label_of (fst run) 2 = Some "History@00003".
Proof.
  intros col run.
  destruct (move_card_up_swaps col 3 2 [1; 2; 3]%N 1
              "History@00003" "History@00002"
              eq_refl eq_refl eq_refl eq_refl eq_refl) as [H _].
  unfold run. rewrite H. split; [reflexivity|]. split; reflexivity.
Defined.

(** X15.  When the selected card is not last in the list and its label
    and the label of the card below have the same prefix, [move_card_down]
    returns [True]: the two cards change places in the list, the selected
    card now being found one position lower, and the two labels exchange
    what follows their last ['@']. *)
Theorem move_card_down_swaps (col : Col) (id u : N) (l : list N) (i : nat)
    (la lb : string) :
  Py.index id l = Some i -> l !! S i = Some u -> u <> id ->
  label_of col id = Some la -> label_of col u = Some lb ->
  prefix_of la = prefix_of lb ->
  let l' := <[S i := id]> (<[i := u]> l) in
  move_card_down id l col =
  (store (cards_nid col u) (prefix_of lb ++ "@" ++ suffix_of la)
     (store (cards_nid col id) (prefix_of la ++ "@" ++ suffix_of lb) col),
   Ok (true, l')) /\
  Py.index id l' = Some (S i) /\ l' !! i = Some u.
Proof.
  intros Hidx Hu Hne Ha Hb Hp l'. split; [|by apply index_after_down].
  rewrite (move_card_down_run col id u l i Hidx Hu).
  by rewrite (swap_same_prefix col (mkCard id _) (mkCard u _) la lb Ha Hb Hp).
Qed.

Lemma move_card_down_swaps_witness :
  let col := example_col "History" [] id
               [(1%N, "History@00001"); (2%N, "History@00002");
                (3%N, "History@00003")] in
  let run := move_card_down 1 [1; 2; 3]%N col in
  snd run = Ok (true, [2; 1; 3]%N) /\
  label_of (fst run) 1 = Some "History@00002" /\
  label_of (fst run) 2 = Some "History@00001".
Proof.
  intros col run.
  destruct (move_card_down_swaps col 1 2 [1; 2; 3]%N 0
              "History@00001" "History@00002"
              eq_refl eq_refl ltac:(discriminate) eq_refl eq_refl eq_refl)
    as [H _].
  unfold run. rewrite H. split; [reflexivity|]. split; reflexivity.
Defined.

(** X16.  A move towards a neighbour is refused when the two labels have
    different prefixes: both functions return [False] and change neither
    the list nor the collection.  When one of the two notes lacks the field
    they raise [KeyError], also without changing anything. *)
Theorem move_card_guard (col : Col) (id u : N) (l : list N) (i : nat) :
  (Py.index id l = Some (S i) /\ l !! i = Some u ->
   (forall la lb, label_of col id = Some la -> label_of col u = Some lb ->
                  prefix_of la <> prefix_of lb ->
                  move_card_up id l col = (col, Ok (false, l))) /\
   (label_of col id = None \/ label_of col u = None ->
    move_card_up id l col = (col, Raise KeyError))) /\
  (Py.index id l = Some i /\ l !! S i = Some u ->
   (forall la lb, label_of col id = Some la -> label_of col u = Some lb ->
                  prefix_of la <> prefix_of lb ->
                  move_card_down id l col = (col, Ok (false, l))) /\
   (label_of col id = None \/ label_of col u = None ->
    move_card_down id l col = (col, Raise KeyError))).
Proof.
  split; intros [Hidx Hu]; split.
  - intros la lb Ha Hb Hne. rewrite (move_card_up_run col id u l i Hidx Hu).
    rewrite (swap_run col (mkCard id _) (mkCard u _) la lb Ha Hb).
    apply String.eqb_neq in Hne. by rewrite Hne.
  - intros Hnone. rewrite (move_card_up_run col id u l i Hidx Hu).
    by rewrite (swap_absent col (mkCard id _) (mkCard u _) Hnone).
  - intros la lb Ha Hb Hne. rewrite (move_card_down_run col id u l i Hidx Hu).
    rewrite (swap_run col (mkCard id _) (mkCard u _) la lb Ha Hb).
    apply String.eqb_neq in Hne. by rewrite Hne.
  - intros Hnone. rewrite (move_card_down_run col id u l i Hidx Hu).
    by rewrite (swap_absent col (mkCard id _) (mkCard u _) Hnone).
Qed.

Lemma move_card_guard_witness :
  let col := example_col "History" [] id
               [(1%N, "History@00001"); (2%N, "Science@00001")] in
  move_card_up 2 [1; 2]%N col = (col, Ok (false, [1; 2]%N)) /\
  move_card_down 1 [1; 2]%N col = (col, Ok (false, [1; 2]%N)).
Proof.
  intros col. split.
  - apply (proj1 (proj1 (move_card_guard col 2 1 [1; 2]%N 0)
                    (conj eq_refl eq_refl))
             "Science@00001" "History@00001").
    + reflexivity.
    + reflexivity.
    + vm_compute. discriminate.
  - apply (proj1 (proj2 (move_card_guard col 1 2 [1; 2]%N 0)
                    (conj eq_refl eq_refl))
             "History@00001" "Science@00001").
    + reflexivity.
    + reflexivity.
    + vm_compute. discriminate.
Defined.

Lemma swap_back col a b la lb :
  fields col !! card_nid a = Some la ->
  fields col !! card_nid b = Some lb ->
  Py.contains "@" la = true -> Py.contains "@" lb = true ->
  prefix_of la = prefix_of lb ->
  exists col1 col2,
    update_deck_ids_after_swap a b col = (col1, Ok true) /\
    update_deck_ids_after_swap a b col1 = (col2, Ok true) /\
    cards_nid col1 = cards_nid col /\
    fields col2 = fields col /\
    length (updates col2) = (4 + length (updates col))%nat.
Proof.
  intros Ha Hb Ca Cb Hp.
  destruct (label_prefix_suffix la Ca) as [Ea _].
  destruct (label_prefix_suffix lb Cb) as [Eb _].
  pose proof (suffix_of_no_at la) as Na.
  pose proof (suffix_of_no_at lb) as Nb.
  set (p := prefix_of lb) in *.
  set (sa := suffix_of la) in *. set (sb := suffix_of lb) in *.
  rewrite Hp in Ea.
  rewrite (swap_same_prefix col a b la lb Ha Hb Hp).
  fold p sa sb. rewrite Hp.
  set (col1 := store (card_nid b) (p ++ "@" ++ sa)
                 (store (card_nid a) (p ++ "@" ++ sb) col)).
  exists col1.
  assert (fields col1 !! card_nid b = Some (p ++ "@" ++ sa)) as Hb1
    by (unfold col1; simpl; by rewrite lookup_insert_eq).
  assert (exists s, fields col1 !! card_nid a = Some (p ++ "@" ++ s) /\
                    Py.contains "@" s = false /\
                    p ++ "@" ++ s = (if decide (card_nid b = card_nid a)
                                     then la else p ++ "@" ++ sb))
    as (s & Ha1 & Ns & Es).
  { unfold col1; simpl. rewrite lookup_insert.
    destruct (decide (card_nid b = card_nid a)) as [E|E].
    - exists sa. by rewrite <- Ea.
    - exists sb. by rewrite lookup_insert_eq. }
  rewrite (swap_same_prefix col1 a b _ _ Ha1 Hb1)
    by (by rewrite !prefix_of_join).
  rewrite !prefix_of_join, !suffix_of_join by done.
  eexists. split; [done|]. split; [done|]. split; [done|].
  split; [|done]. simpl. rewrite <- Ea.
  apply map_eq. intros k. rewrite !lookup_insert.
  destruct (decide (card_nid b = k)) as [<-|Hbk].
  - destruct (decide (card_nid b = card_nid a)) as [E|E].
    + rewrite Es, Hb. rewrite E in Hb. congruence.
    + assert (s = sb) as ->.
      { apply (f_equal suffix_of) in Es. by rewrite !suffix_of_join in Es. }
      by rewrite <- Eb.
  - destruct (decide (card_nid a = k)) as [<-|Hak]; done.
Qed.

(** X17.  Moving a card up and then down again undoes the move: when both
    labels contain ['@'] and have the same prefix, the list is as it was,
    every note has the label it had, and four [update_note] calls have been
    made. *)
Theorem move_up_then_down (col : Col) (id u : N) (l : list N) (i : nat)
    (la lb : string) :
  Py.index id l = Some (S i) -> l !! i = Some u ->
  label_of col id = Some la -> label_of col u = Some lb ->
  Py.contains "@" la = true -> Py.contains "@" lb = true ->
  prefix_of la = prefix_of lb ->
  exists col1 l1 col2,
    move_card_up id l col = (col1, Ok (true, l1)) /\
    move_card_down id l1 col1 = (col2, Ok (true, l)) /\
    fields col2 = fields col /\
    length (updates col2) = (4 + length (updates col))%nat.
Proof.
  intros Hidx Hu Ha Hb Ca Cb Hp.
  destruct (swap_back col (mkCard id (cards_nid col id))
              (mkCard u (cards_nid col u)) la lb Ha Hb Ca Cb Hp)
    as (col1 & col2 & H1 & H2 & Hnid & Hf & Hlen).
  exists col1, (<[i := id]> (<[S i := u]> l)), col2.
  destruct (index_after_up id u l i Hidx Hu) as [Hidx1 Hu1].
  destruct (index_Some id l (S i) Hidx) as [Hid _].
  split; [|split; [|done]].
  - by rewrite (move_card_up_run col id u l i Hidx Hu), H1.
  - rewrite (move_card_down_run col1 id u _ i Hidx1 Hu1), Hnid, H2.
    do 3 f_equal.
    rewrite list_insert_insert_eq, list_insert_insert_ne by lia.
    rewrite list_insert_insert_eq.
    by rewrite (list_insert_id _ _ _ Hid), (list_insert_id _ _ _ Hu).
Qed.

Lemma move_up_then_down_witness :
  let col := example_col "History" [] id
               [(1%N, "History@00001"); (2%N, "History@00002")] in
  exists col1 l1 col2,
    move_card_up 2 [1; 2]%N col = (col1, Ok (true, l1)) /\
    move_card_down 2 l1 col1 = (col2, Ok (true, [1; 2]%N)) /\
    fields col2 = fields col.
Proof.
  intros col.
  destruct (move_up_then_down col 2 1 [1; 2]%N 0
              "History@00002" "History@00001"
              eq_refl eq_refl eq_refl eq_refl eq_refl eq_refl eq_refl)
    as (col1 & l1 & col2 & H1 & H2 & Hf & _).
  exists col1, l1, col2. split; [exact H1|]. split; [exact H2 | exact Hf].
Defined.

End MoveExtras.

(** ** The sweep after a renumbering in the browser *)

Section SweepAfterBrowser.

(** A deck whose cards, in some order, already carry the positions
    1, 2, ... is swept in that order, and the sweep changes no label. *)
Lemma sweep_of_numbered col deck_id order :
  order ≡ₚ decks_cids col deck_id ->
  (forall (j : nat) c, order !! j = Some c ->
     exists p, label_of col c = Some (format_deck_id p (1 + Z.of_nat j))) ->
  fields (fst (reorder_deck_ids deck_id col)) = fields col.
Proof.
  intros Hperm Hlab.
  assert (forall (j : nat) c, order !! j = Some c ->
            sort_key col c = Some (1 + Z.of_nat j)) as Hkey.
  { intros j c Hj. destruct (Hlab j c Hj) as [p Hp].
    eapply sort_key_format; [lia|exact Hp]. }
  assert (is_Some (mapM (sort_key col) (decks_cids col deck_id)))
    as [keys Hkeys].
  { apply mapM_is_Some, Forall_forall. intros c Hc. simpl.
    rewrite <- Hperm in Hc.
    apply list_elem_of_lookup in Hc as [j Hj].
    rewrite (Hkey j c Hj). by eexists. }
  assert (sweep_order col deck_id keys = order) as Horder.
  { unfold sweep_order, Py.sorted.
    rewrite (zip_sort_keys col _ _ Hkeys).
    set (dec := fun c : N => (default 0 (sort_key col c), c)).
    assert (Py.sort_decorated Z.leb (dec <$> decks_cids col deck_id) =
            dec <$> order) as ->.
    { apply (StronglySorted_unique_strong (key_le Z.leb)).
      - intros x1 x2 Hx1 Hx2 H12 H21.
        rewrite sort_decorated_perm, <- Hperm in Hx1.
        apply list_elem_of_fmap in Hx1
          as (c1 & -> & [j1 Hc1]%list_elem_of_lookup).
        apply list_elem_of_fmap in Hx2
          as (c2 & -> & [j2 Hc2]%list_elem_of_lookup).
        unfold key_le, dec in H12, H21. simpl in H12, H21.
        rewrite (Hkey _ _ Hc1), (Hkey _ _ Hc2) in H12, H21.
        simpl in H12, H21. apply Z.leb_le in H12, H21.
        assert (j1 = j2) as -> by lia. congruence.
      - apply sort_decorated_sorted; [apply Z_leb_total | apply Z_leb_trans].
      - apply StronglySorted_lookup. intros i j x y Hij Hi Hj.
        apply list_lookup_fmap_Some in Hi as (ci & -> & Hi).
        apply list_lookup_fmap_Some in Hj as (cj & -> & Hj).
        unfold key_le, dec. simpl.
        rewrite (Hkey _ _ Hi), (Hkey _ _ Hj). simpl. apply Z.leb_le. lia.
      - by rewrite sort_decorated_perm, Hperm. }
    rewrite <- list_fmap_compose. apply list_fmap_id. }
  rewrite (reorder_deck_ids_sorted col deck_id keys Hkeys), Horder. simpl.
  apply foldl_renumber_same; [done|].
  intros [i c] Hin. apply enumerate_elem in Hin as (j & Hj & ->).
  unfold renumber_write. simpl.
  destruct (Hlab j c Hj) as [p Hp]. rewrite Hp. simpl.
  destruct (format_deck_id_parts p (1 + Z.of_nat j) ltac:(lia)) as (-> & _).
  exact Hp.
Qed.

(** X18.  The order given in the browser survives the sweep: when the
    visible list holds the cards of a deck, each with the field and no two
    sharing a note, then after the browser's [reorder_deck_ids] the deck's
    own [reorder_deck_ids] changes no label, and the card at position [j]
    (from 0) of the list keeps the index [j + 1]. *)
Theorem sweep_after_browser_reorder (col : Col) (deck_id : N) (l : list N) :
  l ≡ₚ decks_cids col deck_id ->
  Forall (fun cid => is_Some (label_of col cid)) l ->
  NoDup (cards_nid col <$> l) ->
  let col1 := fst (Browser.reorder_deck_ids l col) in
  let col2 := fst (reorder_deck_ids deck_id col1) in
  fields col2 = fields col1 /\
  forall (j : nat) c, l !! j = Some c ->
    card_index col2 c = Some (Z.of_nat j + 1).
Proof.
  intros Hperm Hlab Hnd col1 col2.
  assert (col1 = foldl (renumber col) col (enumerate 1 l)) as Hcol1.
  { unfold col1, Browser.reorder_deck_ids.
    by rewrite (browser_reorder_loop_run col l col 0 eq_refl
                  (labelled_cards_start col l Hlab)) by lia. }
  destruct (foldl_renumber_static col (enumerate 1 l) col)
    as (Hnid & Hcids & _).
  rewrite <- Hcol1 in Hnid, Hcids.
  assert (forall (j : nat) c, l !! j = Some c ->
            label_of col1 c =
            Some (format_deck_id (prefix_of (default "" (label_of col c)))
                    (Z.of_nat j + 1))) as Hl1.
  { intros j c Hj. rewrite Hcol1. by apply browser_renumber_label. }
  assert (fields col2 = fields col1) as Hsame.
  { apply (sweep_of_numbered col1 deck_id l); [by rewrite Hcids|].
    intros j c Hj. eexists. rewrite (Hl1 j c Hj). do 2 f_equal. lia. }
  split; [done|]. intros j c Hj.
  unfold card_index, label_of.
  destruct (reorder_static col1 deck_id) as (Hnid2 & _).
  fold col2 in Hnid2. rewrite Hnid2, Hsame.
  fold (label_of col1 c). rewrite (Hl1 j c Hj). simpl.
  by rewrite parse_format by lia.
Qed.

Lemma sweep_after_browser_reorder_witness :
  let col := example_col "Math" [1; 2; 3]%N id
               [(1%N, "Math@00001"); (2%N, "Math@00002");
                (3%N, "Math@00003")] in
  let col1 := fst (Browser.reorder_deck_ids [3; 1; 2]%N col) in
  fields (fst (reorder_deck_ids 1 col1)) = fields col1.
Proof.
  intros col col1.
  refine (proj1 (sweep_after_browser_reorder col 1 [3; 1; 2]%N _ _ _)).
  - change (decks_cids col 1) with [1; 2; 3]%N.
    apply perm_trans with [1; 3; 2]%N; [apply perm_swap|].
    apply perm_skip, perm_swap.
  - repeat apply List.Forall_cons; [..|apply List.Forall_nil]; by eexists.
  - apply (bool_decide_unpack _). reflexivity.
Defined.

End SweepAfterBrowser.
